(** * Project Euler problems 1 and 2: the Python scripts, embedded and verified

    Python integers are unbounded, so they are [Z]; [//] and [%] are floor
    division and its remainder, which is what [Z.div] and [Z.modulo] compute.
    The [while] loops of the Fibonacci module have no syntactic bound, so
    they are run with fuel and every statement about a result comes with the
    proof that the fuel suffices.  [time.perf_counter()] is the only effect:
    the readings of the clock are an input of the model and the number of
    readings taken so far is threaded through the calls. *)

From Stdlib Require Import ZArith List Sorted Lia String Bool PrimFloat.
Import ListNotations.
Open Scope list_scope.
Open Scope Z_scope.

(** ** Outcomes of a call *)

Inductive exn : Type :=
| ValueError (msg : string)
| ZeroDivisionError.

Inductive outcome (A : Type) : Type :=
| Returned (x : A)
| Raised (e : exn)
| OutOfFuel.

Arguments Returned {A} x.
Arguments Raised {A} e.
Arguments OutOfFuel {A}.

(** ** The clock and the monad of the Fibonacci module *)

(** [clk n] is what the [n]-th call of [time.perf_counter()] returns. *)
Definition Clock : Type := nat -> float.

Definition M (A : Type) : Type := Clock -> nat -> outcome (A * nat).

Definition ret {A : Type} (x : A) : M A :=
  fun _ t => Returned (x, t).

Definition bind {A B : Type} (m : M A) (k : A -> M B) : M B :=
  fun clk t =>
    match m clk t with
    | Returned (x, t') => k x clk t'
    | Raised e => Raised e
    | OutOfFuel => OutOfFuel
    end.

Definition raise {A : Type} (e : exn) : M A :=
  fun _ _ => Raised e.

Definition perf_counter : M float :=
  fun clk t => Returned (clk t, S t).

Definition terminated {A : Type} (o : option A) : M A :=
  fun _ t =>
    match o with
    | Some x => Returned (x, t)
    | None => OutOfFuel
    end.

Notation "x <- m ;; k" := (bind m (fun x => k))
  (at level 61, m at next level, right associativity).

(** [while cond body]: the loop [while cond(s): s = body(s)], [None] when the
    fuel runs out before the condition turns false. *)
Fixpoint while {S : Type} (cond : S -> bool) (body : S -> S)
         (fuel : nat) (s : S) : option S :=
  match fuel with
  | O => None
  | Datatypes.S fuel' =>
      if cond s then while cond body fuel' (body s) else Some s
  end.

(** [for _ in range(n): s = body(s)] *)
Definition for_range {S : Type} (n : nat) (body : S -> S) (s : S) : S :=
  Nat.iter n body s.

(** [sum] of a list of integers *)
Definition sumZ (l : list Z) : Z := fold_right Z.add 0 l.

(** ** Problem 1: sum of the multiples of 3 or 5 below N *)

Module Euler1.

(** Python's [x // y] *)
Definition floordiv (x y : Z) : outcome Z :=
  if y =? 0 then Raised ZeroDivisionError else Returned (x / y).

Definition sum_multiples_below (n m : Z) : outcome Z :=
  if n <=? m then Returned 0
  else
    match floordiv (n - 1) m with
    | Returned k => floordiv (m * k * (k + 1)) 2
    | Raised e => Raised e
    | OutOfFuel => OutOfFuel
    end.

Definition calculate_sum_3_or_5 (n : Z) : outcome Z :=
  match sum_multiples_below n 3 with
  | Returned sum_3 =>
      match sum_multiples_below n 5 with
      | Returned sum_5 =>
          match sum_multiples_below n 15 with
          | Returned sum_15 => Returned (sum_3 + sum_5 - sum_15)
          | Raised e => Raised e
          | OutOfFuel => OutOfFuel
          end
      | Raised e => Raised e
      | OutOfFuel => OutOfFuel
      end
  | Raised e => Raised e
  | OutOfFuel => OutOfFuel
  end.

(** What [solve_test_cases] can end in other than a result: an exception of
    the functions above, or the [KeyError] of a dictionary lookup. *)
Inductive error : Type :=
| Exception (e : exn)
| KeyError (key : Z)
| Unfinished.

(** The outcome of a call, as a result or an error; no function of this
    module uses fuel, so [Unfinished] is never produced. *)
Definition completed {A : Type} (o : outcome A) : error + A :=
  match o with
  | Returned x => inr x
  | Raised e => inl (Exception e)
  | OutOfFuel => inl Unfinished
  end.

(** A dictionary from integers to integers, in insertion order. *)
Definition dict : Type := list (Z * Z).

(** [d[key]] *)
Fixpoint dict_get (d : dict) (key : Z) : error + Z :=
  match d with
  | [] => inl (KeyError key)
  | (k, v) :: d' => if k =? key then inr v else dict_get d' key
  end.

(** [d[key] = value] *)
Fixpoint dict_set (d : dict) (key value : Z) : dict :=
  match d with
  | [] => [(key, value)]
  | (k, v) :: d' =>
      if k =? key then (k, value) :: d' else (k, v) :: dict_set d' key value
  end.

(** [{n: calculate_sum_3_or_5(n) for n in keys}], filling [d] *)
Fixpoint unique_sums_from (d : dict) (keys : list Z) : error + dict :=
  match keys with
  | [] => inr d
  | n :: keys' =>
      match completed (calculate_sum_3_or_5 n) with
      | inr v => unique_sums_from (dict_set d n v) keys'
      | inl e => inl e
      end
  end.

(** [[unique_sums[n] for n in test_cases]] *)
Fixpoint lookup_all (unique_sums : dict) (test_cases : list Z)
  : error + list Z :=
  match test_cases with
  | [] => inr []
  | n :: rest =>
      match dict_get unique_sums n with
      | inr v =>
          match lookup_all unique_sums rest with
          | inr vs => inr (v :: vs)
          | inl e => inl e
          end
      | inl e => inl e
      end
  end.

(** [set_order] is the order in which Python iterates [set(test_cases)]. *)
Definition solve_test_cases (set_order : list Z) (test_cases : list Z)
  : error + list Z :=
  match unique_sums_from [] set_order with
  | inr unique_sums => lookup_all unique_sums test_cases
  | inl e => inl e
  end.

End Euler1.

(** ** Problem 2: the three Fibonacci algorithms *)

Module Euler2.

Definition DEFAULT_LIMIT : Z := 4000000.

Inductive FibonacciFilter : Type := ALL | EVEN | ODD.

Record FibonacciResult : Type := {
  filter_type : FibonacciFilter;
  sum_value : Z;
  sequence : list Z;
  count : Z;
  glb : Z;
  lub : Z;
  limit : Z;
  computation_time : float
}.

(** [sequence[-1] if sequence else 0] *)
Definition last_or_zero (sequence : list Z) : Z := last sequence 0.

(** [len(sequence)] *)
Definition len (sequence : list Z) : Z := Z.of_nat (List.length sequence).

Definition fibonacci_all (fuel : nat) (limit : Z) : M FibonacciResult :=
  start_time <- perf_counter ;;
  vars <- terminated
    (while (fun '(sequence, total, a, b) => a <=? limit)
           (fun '(sequence, total, a, b) =>
              (sequence ++ [a], total + a, b, a + b))
           fuel ([], 0, 1, 2)) ;;
  let '(sequence, total, a, b) := vars in
  let glb := last_or_zero sequence in
  let lub := a in
  end_time <- perf_counter ;;
  ret {| filter_type := ALL;
         sum_value := total;
         sequence := sequence;
         count := len sequence;
         glb := glb;
         lub := lub;
         limit := limit;
         computation_time := PrimFloat.sub end_time start_time |}.

Definition fibonacci_even_optimized (fuel : nat) (limit : Z)
  : M FibonacciResult :=
  start_time <- perf_counter ;;
  vars <- terminated
    (while (fun '(sequence, total, a, b) => a <=? limit)
           (fun '(sequence, total, a, b) =>
              (sequence ++ [a], total + a, b, 4 * b + a))
           fuel ([], 0, 2, 8)) ;;
  let '(sequence, total, a, b) := vars in
  let glb := last_or_zero sequence in
  let lub := a in
  end_time <- perf_counter ;;
  ret {| filter_type := EVEN;
         sum_value := total;
         sequence := sequence;
         count := len sequence;
         glb := glb;
         lub := lub;
         limit := limit;
         computation_time := PrimFloat.sub end_time start_time |}.

Definition fibonacci_even_filtered (fuel : nat) (limit : Z)
  : M FibonacciResult :=
  start_time <- perf_counter ;;
  vars <- terminated
    (while (fun '(sequence, total, a, b) => a <=? limit)
           (fun '(sequence, total, a, b) =>
              if a mod 2 =? 0
              then (sequence ++ [a], total + a, b, a + b)
              else (sequence, total, b, a + b))
           fuel ([], 0, 1, 2)) ;;
  let '(sequence, total, a, b) := vars in
  ab <- terminated
    (while (fun '(a, b) => a mod 2 =? 1)
           (fun '(a, b) => (b, a + b))
           fuel (a, b)) ;;
  let '(a, b) := ab in
  let glb := last_or_zero sequence in
  let lub := a in
  end_time <- perf_counter ;;
  ret {| filter_type := EVEN;
         sum_value := total;
         sequence := sequence;
         count := len sequence;
         glb := glb;
         lub := lub;
         limit := limit;
         computation_time := PrimFloat.sub end_time start_time |}.

Definition fibonacci_odd_filtered (fuel : nat) (limit : Z)
  : M FibonacciResult :=
  start_time <- perf_counter ;;
  vars <- terminated
    (while (fun '(sequence, total, a, b) => a <=? limit)
           (fun '(sequence, total, a, b) =>
              if a mod 2 =? 1
              then (sequence ++ [a], total + a, b, a + b)
              else (sequence, total, b, a + b))
           fuel ([], 0, 1, 2)) ;;
  let '(sequence, total, a, b) := vars in
  ab <- terminated
    (while (fun '(a, b) => (a <=? limit) || (a mod 2 =? 0))
           (fun '(a, b) => (b, a + b))
           fuel (a, b)) ;;
  let '(a, b) := ab in
  let glb := last_or_zero sequence in
  let lub := a in
  end_time <- perf_counter ;;
  ret {| filter_type := ODD;
         sum_value := total;
         sequence := sequence;
         count := len sequence;
         glb := glb;
         lub := lub;
         limit := limit;
         computation_time := PrimFloat.sub end_time start_time |}.

Definition fibonacci_odd_difference (fuel : nat) (limit : Z)
  : M FibonacciResult :=
  start_time <- perf_counter ;;
  all_result <- fibonacci_all fuel limit ;;
  even_result <- fibonacci_even_optimized fuel limit ;;
  let odd_sequence :=
    filter (fun f => f mod 2 =? 1) (sequence all_result) in
  let odd_sum := sum_value all_result - sum_value even_result in
  let a := lub all_result in
  let b := a + glb all_result in
  ab <- terminated
    (while (fun '(a, b) => a mod 2 =? 0)
           (fun '(a, b) => (b, a + b))
           fuel (a, b)) ;;
  let '(a, b) := ab in
  let glb := last_or_zero odd_sequence in
  let lub := a in
  end_time <- perf_counter ;;
  ret {| filter_type := ODD;
         sum_value := odd_sum;
         sequence := odd_sequence;
         count := len odd_sequence;
         glb := glb;
         lub := lub;
         limit := limit;
         computation_time := PrimFloat.sub end_time start_time |}.

(** What a caller can pass as [filter_type]: a member of the enumeration, or
    any other Python object, of which only its [str] matters. *)
Inductive filter_arg : Type :=
| Member (f : FibonacciFilter)
| Foreign (str : string).

Module UnifiedFibonacciSolver.

Record self : Type := __init__ { limit : Z }.

Definition solve (fuel : nat) (this : self) (filter_type : filter_arg)
  : M FibonacciResult :=
  match filter_type with
  | Member ALL => fibonacci_all fuel (limit this)
  | Member EVEN => fibonacci_even_optimized fuel (limit this)
  | Member ODD => fibonacci_odd_difference fuel (limit this)
  | Foreign str => raise (ValueError ("Unknown filter type: " ++ str)%string)
  end.

Definition solve_all_three (fuel : nat) (this : self)
  : M (FibonacciResult * FibonacciResult * FibonacciResult) :=
  all_result <- solve fuel this (Member ALL) ;;
  even_result <- solve fuel this (Member EVEN) ;;
  odd_result <- solve fuel this (Member ODD) ;;
  ret (all_result, even_result, odd_result).

Definition verify_results (all_result even_result odd_result : FibonacciResult)
  : bool :=
  sum_value all_result =? sum_value even_result + sum_value odd_result.

End UnifiedFibonacciSolver.

(** The specification's [analyze(bound, filter)] is the construction of a
    solver for [bound] followed by its [solve]. *)
Definition analyze (fuel : nat) (bound : Z) (filter : filter_arg)
  : M FibonacciResult :=
  UnifiedFibonacciSolver.solve fuel (UnifiedFibonacciSolver.__init__ bound)
    filter.

Module DedekindCut.

Record t : Type := {
  limit : Z;
  lower_set : list Z;
  upper_set : list Z;
  glb : Z;
  lub : Z;
  glb_index : Z;
  lub_index : Z
}.

End DedekindCut.

Definition filter_eqb (f g : FibonacciFilter) : bool :=
  match f, g with
  | ALL, ALL | EVEN, EVEN | ODD, ODD => true
  | _, _ => false
  end.

(** [filter_type == FibonacciFilter.f] *)
Definition is_filter (filter_type : filter_arg) (f : FibonacciFilter) : bool :=
  match filter_type with
  | Member g => filter_eqb g f
  | Foreign _ => false
  end.

(** The part of [analyze_dedekind_cut] that fills [upper_set], from the
    [glb] and [lub] of the result of [solve]. *)
Definition upper_set_of (filter_type : filter_arg) (glb lub : Z) : list Z :=
  let upper_set := [] in
  let '(a, b) := (glb, lub) in
  let '(upper_set, a, b) :=
    if is_filter filter_type EVEN then
      let '(a, b) := (lub, 4 * lub + glb) in
      for_range 3
        (fun '(upper_set, a, b) => (upper_set ++ [a], b, 4 * b + a))
        (upper_set, a, b)
    else
      for_range 3
        (fun '(upper_set, a, b) =>
           let upper_set := upper_set ++ [b] in
           let '(a, b) := (b, a + b) in
           if is_filter filter_type ODD && (b mod 2 =? 0)
           then (upper_set, b, a + b)
           else (upper_set, a, b))
        (upper_set, a, b) in
  upper_set.

Definition analyze_dedekind_cut
           (fuel : nat) (filter_type : filter_arg) (limit : Z)
  : M DedekindCut.t :=
  let solver := UnifiedFibonacciSolver.__init__ limit in
  result <- UnifiedFibonacciSolver.solve fuel solver filter_type ;;
  let lower_set := sequence result in
  let upper_set := upper_set_of filter_type (glb result) (lub result) in
  ret {| DedekindCut.limit := limit;
         DedekindCut.lower_set := lower_set;
         DedekindCut.upper_set := upper_set;
         DedekindCut.glb := glb result;
         DedekindCut.lub := lub result;
         DedekindCut.glb_index := count result;
         DedekindCut.lub_index := count result + 1 |}.

End Euler2.

Import Euler2.

(** ** The reference objects of the specification *)

(** The Fibonacci sequence seeded (1, 2): 1, 2, 3, 5, 8, ... *)
Fixpoint fib (n : nat) : Z :=
  match n with
  | O => 1
  | S n' =>
      match n' with
      | O => 2
      | S n'' => fib n'' + fib n'
      end
  end.

(** The even-valued terms of [fib], in order: 2, 8, 34, ... *)
Definition even_fib (j : nat) : Z := fib (3 * j + 1).

(** The parity predicate of a filter. *)
Definition parity_ok (f : FibonacciFilter) (x : Z) : Prop :=
  match f with
  | ALL => True
  | EVEN => x mod 2 = 0
  | ODD => x mod 2 = 1
  end.

(** The filtered class: the terms of [fib] of the filter's parity. *)
Definition in_class (f : FibonacciFilter) (x : Z) : Prop :=
  (exists n, x = fib n) /\ parity_ok f x.

(** [k] is the index of the first term of [fib] above [limit]. *)
Definition is_cut (limit : Z) (k : nat) : Prop :=
  (forall j, (j < k)%nat -> fib j <= limit) /\ limit < fib k.

(** The first [k] terms of [fib], and the first [k] of its even terms. *)
Definition fibs (k : nat) : list Z := map fib (seq 0 k).
Definition evens (k : nat) : list Z := map even_fib (seq 0 k).

(** How many of the first [k] terms of [fib] are even. *)
Definition even_count (k : nat) : nat := ((k + 1) / 3)%nat.

(** The tests of the source on the parity of a term. *)
Definition is_even (x : Z) : bool := x mod 2 =? 0.
Definition is_odd (x : Z) : bool := x mod 2 =? 1.

(** How often a call of [solve] reads the clock, and the time it reports. *)
Definition reads (f : FibonacciFilter) : nat :=
  match f with
  | ODD => 6
  | _ => 2
  end.

Definition elapsed (f : FibonacciFilter) (clk : Clock) (t : nat) : float :=
  PrimFloat.sub (clk (Nat.pred (reads f) + t)%nat) (clk t).

(** The record that [solve] builds when the cut of its limit is at index [k],
    in closed form. *)
Definition expected (f : FibonacciFilter) (limit : Z) (k : nat) (time : float)
  : FibonacciResult :=
  match f with
  | ALL =>
      {| filter_type := ALL;
         sum_value := sumZ (fibs k);
         sequence := fibs k;
         count := len (fibs k);
         glb := last_or_zero (fibs k);
         lub := fib k;
         limit := limit;
         computation_time := time |}
  | EVEN =>
      {| filter_type := EVEN;
         sum_value := sumZ (evens (even_count k));
         sequence := evens (even_count k);
         count := len (evens (even_count k));
         glb := last_or_zero (evens (even_count k));
         lub := even_fib (even_count k);
         limit := limit;
         computation_time := time |}
  | ODD =>
      {| filter_type := ODD;
         sum_value := sumZ (fibs k) - sumZ (evens (even_count k));
         sequence := filter is_odd (fibs k);
         count := len (filter is_odd (fibs k));
         glb := last_or_zero (filter is_odd (fibs k));
         lub := if is_even (fib k) then fib (S k) else fib k;
         limit := limit;
         computation_time := time |}
  end.

(** The positive integers below [n] that satisfy [p], summed. *)
Definition sum_below (p : Z -> bool) (n : Z) : Z :=
  sumZ (filter p (map Z.of_nat (seq 1 (Z.to_nat n - 1)))).

(** The predicates of problem 1, and the [k]-th triangular number. *)
Definition multiple_of (m i : Z) : bool := i mod m =? 0.

Definition multiple_of_3_or_5 (i : Z) : bool :=
  multiple_of 3 i || multiple_of 5 i.

Definition triangle (k : Z) : Z := k * (k + 1) / 2.

(** [m] returns [r], whatever the clock position it leaves behind. *)
Definition returns {A : Type} (m : M A) (clk : Clock) (t : nat) (r : A)
  : Prop :=
  exists t', m clk t = Returned (r, t').

(** [m] raises an exception. *)
Definition raises {A : Type} (m : M A) (clk : Clock) (t : nat) : Prop :=
  exists e, m clk t = Raised e.

(** The cut that [analyze_dedekind_cut] builds from the result [r] of
    [solve] for the filter [f]. *)
Definition cut_of (f : FibonacciFilter) (r : FibonacciResult) : DedekindCut.t :=
  {| DedekindCut.limit := limit r;
     DedekindCut.lower_set := sequence r;
     DedekindCut.upper_set := upper_set_of (Member f) (glb r) (lub r);
     DedekindCut.glb := glb r;
     DedekindCut.lub := lub r;
     DedekindCut.glb_index := count r;
     DedekindCut.lub_index := count r + 1 |}.

(** Two clocks: one that stands still, one whose readings are 0, 1, 2 and
    then 4. *)
Definition still_clock : Clock := fun _ => 0%float.

Definition ticking_clock : Clock :=
  fun n =>
    match n with
    | 0%nat => 0%float
    | 1%nat => 1%float
    | 2%nat => 2%float
    | _ => 4%float
    end.

(** Fuel that is enough for every loop of a call with this bound. *)
Definition enough (limit : Z) (fuel : nat) : Prop :=
  (Z.to_nat limit + 3 <= fuel)%nat.

(** ** Loops *)

Section While.
Context {S : Type} (cond : S -> bool) (body : S -> S).

Lemma while_iter (k : nat) :
  forall (fuel : nat) (s : S),
    (forall j, (j < k)%nat -> cond (Nat.iter j body s) = true) ->
    cond (Nat.iter k body s) = false ->
    (k < fuel)%nat ->
    while cond body fuel s = Some (Nat.iter k body s).
Proof.
  induction k as [|k IH]; intros fuel s Hlt Hk Hfuel.
  - destruct fuel as [|fuel]; [lia|]. simpl in *. now rewrite Hk.
  - destruct fuel as [|fuel]; [lia|]. cbn [while].
    pose proof (Hlt 0%nat ltac:(lia)) as H0. cbn in H0. rewrite H0.
    rewrite Nat.iter_succ_r.
    apply IH.
    + intros j Hj. rewrite <- Nat.iter_succ_r. apply Hlt. lia.
    + now rewrite <- Nat.iter_succ_r.
    + lia.
Qed.

Lemma while_result (k : nat) (fuel : nat) (s r : S) :
  (forall j, (j < k)%nat -> cond (Nat.iter j body s) = true) ->
  cond (Nat.iter k body s) = false ->
  Nat.iter k body s = r ->
  (k < fuel)%nat ->
  while cond body fuel s = Some r.
Proof.
  intros Hlt Hk <- Hfuel. now apply while_iter.
Qed.

Lemma while_more_fuel (fuel fuel' : nat) (s r : S) :
  while cond body fuel s = Some r ->
  (fuel <= fuel')%nat ->
  while cond body fuel' s = Some r.
Proof.
  revert fuel' s. induction fuel as [|fuel IH]; intros fuel' s H Hle.
  - discriminate.
  - destruct fuel' as [|fuel']; [lia|]. simpl in *.
    destruct (cond s); [|assumption]. apply (IH fuel' _ H). lia.
Qed.
End While.

(** ** Lists *)

Lemma sumZ_app (l1 l2 : list Z) : sumZ (l1 ++ l2) = sumZ l1 + sumZ l2.
Proof.
  unfold sumZ. induction l1 as [|x l1 IH]; simpl; [reflexivity|].
  rewrite IH. lia.
Qed.

Lemma sumZ_snoc (l : list Z) (x : Z) : sumZ (l ++ [x]) = sumZ l + x.
Proof. rewrite sumZ_app. simpl. lia. Qed.

(** ** The sequence [fib] *)

Lemma fib_SS (n : nat) : fib (S (S n)) = fib n + fib (S n).
Proof. reflexivity. Qed.

Lemma fib_pos_lt (n : nat) : 0 < fib n < fib (S n).
Proof.
  induction n as [|n IH].
  - simpl. lia.
  - rewrite fib_SS. lia.
Qed.

Lemma fib_pos (n : nat) : 0 < fib n.
Proof. apply fib_pos_lt. Qed.

Lemma fib_lt (n m : nat) : (n < m)%nat -> fib n < fib m.
Proof.
  induction 1 as [|m _ IH].
  - apply fib_pos_lt.
  - pose proof (fib_pos_lt m). lia.
Qed.

Lemma fib_le (n m : nat) : (n <= m)%nat -> fib n <= fib m.
Proof.
  intros H. destruct (Nat.eq_dec n m) as [->|Hne]; [lia|].
  apply Z.lt_le_incl, fib_lt. lia.
Qed.

Lemma fib_lt_inv (n m : nat) : fib n < fib m -> (n < m)%nat.
Proof.
  intros H. destruct (Nat.lt_ge_cases n m) as [|Hge]; [assumption|].
  apply fib_le in Hge. lia.
Qed.

Lemma fib_above (n : nat) : Z.of_nat n < fib n.
Proof.
  induction n as [|n IH].
  - simpl. lia.
  - pose proof (fib_pos_lt n). lia.
Qed.

Lemma fib_plus6 (n : nat) : fib (6 + n) = 4 * fib (3 + n) + fib n.
Proof.
  change (6 + n)%nat with (S (S (S (3 + n)))).
  rewrite (fib_SS (S (3 + n))), (fib_SS (3 + n)).
  change (3 + n)%nat with (S (S (S n))). rewrite !fib_SS. lia.
Qed.

Lemma even_fib_SS (j : nat) :
  even_fib (S (S j)) = 4 * even_fib (S j) + even_fib j.
Proof.
  unfold even_fib.
  replace (3 * S (S j) + 1)%nat with (6 + (3 * j + 1))%nat by lia.
  replace (3 * S j + 1)%nat with (3 + (3 * j + 1))%nat by lia.
  apply fib_plus6.
Qed.

Lemma fib_parity_succ (m : nat) :
  fib (3 * m) mod 2 = 1 /\ fib (S (3 * m)) mod 2 = 0 /\
  fib (S (S (3 * m))) mod 2 = 1.
Proof.
  induction m as [|m (H0 & H1 & H2)].
  - repeat split; reflexivity.
  - replace (3 * S m)%nat with (S (S (S (3 * m)))) by lia.
    assert (A0 : fib (S (S (S (3 * m)))) mod 2 = 1).
    { rewrite fib_SS, Z.add_mod, H1, H2 by lia. reflexivity. }
    assert (A1 : fib (S (S (S (S (3 * m))))) mod 2 = 0).
    { rewrite fib_SS, Z.add_mod, H2, A0 by lia. reflexivity. }
    repeat split; [exact A0 | exact A1 |].
    rewrite fib_SS, Z.add_mod, A0, A1 by lia. reflexivity.
Qed.

Lemma fib_parity (m : nat) :
  fib (3 * m) mod 2 = 1 /\ fib (3 * m + 1) mod 2 = 0 /\
  fib (3 * m + 2) mod 2 = 1.
Proof.
  replace (3 * m + 1)%nat with (S (3 * m)) by lia.
  replace (3 * m + 2)%nat with (S (S (3 * m))) by lia.
  apply fib_parity_succ.
Qed.

Lemma index_mod3 (n : nat) :
  exists m, n = (3 * m)%nat \/ n = (3 * m + 1)%nat \/ n = (3 * m + 2)%nat.
Proof.
  exists (n / 3)%nat.
  pose proof (Nat.div_mod_eq n 3). pose proof (Nat.mod_upper_bound n 3).
  lia.
Qed.

Lemma fib_even_iff (n : nat) :
  fib n mod 2 = 0 <-> exists j, n = (3 * j + 1)%nat.
Proof.
  split.
  - intros H. destruct (index_mod3 n) as [m [-> | [-> | ->]]].
    + destruct (fib_parity m) as (H0 & _). lia.
    + now exists m.
    + destruct (fib_parity m) as (_ & _ & H2). lia.
  - intros [j ->]. apply fib_parity.
Qed.

Lemma fib_mod2 (n : nat) : fib n mod 2 = 0 \/ fib n mod 2 = 1.
Proof. pose proof (Z.mod_pos_bound (fib n) 2). lia. Qed.

(** ** The cut *)

Lemma cut_below (limit : Z) (n : nat) :
  limit < fib n -> exists k, (k <= n)%nat /\ is_cut limit k.
Proof.
  induction n as [|n IH]; intros H.
  - exists 0%nat. split; [lia|]. split; [intros j Hj; lia | assumption].
  - destruct (Z_lt_le_dec limit (fib n)) as [Hlt|Hle].
    + destruct (IH Hlt) as (k & Hk & Hcut). exists k. split; [lia|assumption].
    + exists (S n). split; [lia|]. split; [|assumption].
      intros j Hj. assert (fib j <= fib n) by (apply fib_le; lia). lia.
Qed.

Lemma cut_exists (limit : Z) :
  exists k, (k <= Z.to_nat limit)%nat /\ is_cut limit k.
Proof.
  apply cut_below. pose proof (fib_above (Z.to_nat limit)). lia.
Qed.

Lemma cut_le_iff (limit : Z) (k j : nat) :
  is_cut limit k -> (fib j <= limit <-> (j < k)%nat).
Proof.
  intros [Hlow Hk]. split.
  - intros H. apply fib_lt_inv. lia.
  - apply Hlow.
Qed.

Lemma cut_unique (limit : Z) (k k' : nat) :
  is_cut limit k -> is_cut limit k' -> k = k'.
Proof.
  intros H H'.
  destruct (Nat.lt_trichotomy k k') as [Hl|[He|Hg]]; [|assumption|].
  - apply (cut_le_iff _ _ _ H') in Hl. destruct H. lia.
  - apply (cut_le_iff _ _ _ H) in Hg. destruct H'. lia.
Qed.

Lemma even_count_spec (k : nat) :
  (3 * even_count k <= k + 1 < 3 * even_count k + 3)%nat.
Proof.
  unfold even_count.
  pose proof (Nat.div_mod_eq (k + 1) 3).
  pose proof (Nat.mod_upper_bound (k + 1) 3). lia.
Qed.

Lemma even_cut (limit : Z) (k j : nat) :
  is_cut limit k -> (even_fib j <= limit <-> (j < even_count k)%nat).
Proof.
  intros Hcut. unfold even_fib. rewrite (cut_le_iff _ _ _ Hcut).
  pose proof (even_count_spec k). lia.
Qed.

(** ** The lists [fibs] and [evens] *)

Lemma fibs_S (k : nat) : fibs (S k) = fibs k ++ [fib k].
Proof. unfold fibs. rewrite seq_S, map_app. reflexivity. Qed.

Lemma evens_S (k : nat) : evens (S k) = evens k ++ [even_fib k].
Proof. unfold evens. rewrite seq_S, map_app. reflexivity. Qed.

Lemma in_fibs (k : nat) (x : Z) :
  In x (fibs k) <-> exists j, (j < k)%nat /\ x = fib j.
Proof.
  unfold fibs. rewrite in_map_iff. split.
  - intros (j & <- & Hj). apply in_seq in Hj. exists j. split; [lia|reflexivity].
  - intros (j & Hj & ->). exists j. split; [reflexivity|]. apply in_seq. lia.
Qed.

Lemma in_evens (k : nat) (x : Z) :
  In x (evens k) <-> exists j, (j < k)%nat /\ x = even_fib j.
Proof.
  unfold evens. rewrite in_map_iff. split.
  - intros (j & <- & Hj). apply in_seq in Hj. exists j. split; [lia|reflexivity].
  - intros (j & Hj & ->). exists j. split; [reflexivity|]. apply in_seq. lia.
Qed.

Lemma last_fibs (k : nat) : last_or_zero (fibs (S k)) = fib k.
Proof. unfold last_or_zero. rewrite fibs_S. apply last_last. Qed.

Lemma is_even_fib (k : nat) :
  is_even (fib k) = true <-> exists j, k = (3 * j + 1)%nat.
Proof. unfold is_even. rewrite Z.eqb_eq. apply fib_even_iff. Qed.

Lemma is_odd_even (x : Z) : is_odd x = negb (is_even x).
Proof.
  unfold is_odd, is_even. pose proof (Z.mod_pos_bound x 2).
  destruct (Z.eqb_spec (x mod 2) 1), (Z.eqb_spec (x mod 2) 0);
    simpl; try reflexivity; lia.
Qed.

Lemma filter_even_fibs (k : nat) :
  filter is_even (fibs k) = evens (even_count k).
Proof.
  induction k as [|k IH]; [reflexivity|].
  rewrite fibs_S, filter_app, IH. cbn [filter].
  pose proof (even_count_spec k) as Hk.
  pose proof (even_count_spec (S k)) as HSk.
  destruct (is_even (fib k)) eqn:E.
  - apply is_even_fib in E. destruct E as [j Hj].
    assert (even_count k = j) as -> by lia.
    assert (even_count (S k) = S j) as -> by lia.
    subst. rewrite evens_S. unfold even_fib. reflexivity.
  - assert (even_count (S k) = even_count k) as ->.
    { destruct (Nat.eq_dec (even_count (S k)) (even_count k)); [assumption|].
      assert (is_even (fib k) = true) as E'
        by (apply is_even_fib; exists (even_count k); lia).
      congruence. }
    now rewrite app_nil_r.
Qed.

(** ** The loops of the source, in closed form *)

Lemma all_loop (limit : Z) (k fuel : nat) :
  is_cut limit k ->
  (k < fuel)%nat ->
  while (fun '(sequence, total, a, b) => a <=? limit)
        (fun '(sequence, total, a, b) =>
           (sequence ++ [a], total + a, b, a + b))
        fuel ([], 0, 1, 2)
  = Some (fibs k, sumZ (fibs k), fib k, fib (S k)).
Proof.
  intros Hcut Hfuel.
  assert (Hiter : forall j,
    Nat.iter j (fun '(sequence, total, a, b) =>
                  (sequence ++ [a], total + a, b, a + b)) ([], 0, 1, 2)
    = (fibs j, sumZ (fibs j), fib j, fib (S j))).
  { induction j as [|j IH]; [reflexivity|].
    rewrite Nat.iter_succ, IH. cbv beta iota.
    rewrite fibs_S, sumZ_snoc, fib_SS. reflexivity. }
  apply while_result with (k := k); try assumption.
  - intros j Hj. rewrite Hiter. apply Z.leb_le, (cut_le_iff _ _ _ Hcut), Hj.
  - rewrite Hiter. apply Z.leb_gt, Hcut.
  - apply Hiter.
Qed.

Lemma even_loop (limit : Z) (k fuel : nat) :
  is_cut limit k ->
  (k < fuel)%nat ->
  while (fun '(sequence, total, a, b) => a <=? limit)
        (fun '(sequence, total, a, b) =>
           (sequence ++ [a], total + a, b, 4 * b + a))
        fuel ([], 0, 2, 8)
  = Some (evens (even_count k), sumZ (evens (even_count k)),
          even_fib (even_count k), even_fib (S (even_count k))).
Proof.
  intros Hcut Hfuel.
  assert (Hiter : forall j,
    Nat.iter j (fun '(sequence, total, a, b) =>
                  (sequence ++ [a], total + a, b, 4 * b + a)) ([], 0, 2, 8)
    = (evens j, sumZ (evens j), even_fib j, even_fib (S j))).
  { induction j as [|j IH]; [reflexivity|].
    rewrite Nat.iter_succ, IH. cbv beta iota.
    rewrite evens_S, sumZ_snoc, even_fib_SS. reflexivity. }
  apply while_result with (k := even_count k).
  - intros j Hj. rewrite Hiter. apply Z.leb_le, (even_cut _ _ _ Hcut), Hj.
  - rewrite Hiter. apply Z.leb_gt.
    pose proof (even_cut limit k (even_count k) Hcut). lia.
  - apply Hiter.
  - pose proof (even_count_spec k). lia.
Qed.

Lemma even_filter_loop (limit : Z) (k fuel : nat) :
  is_cut limit k ->
  (k < fuel)%nat ->
  while (fun '(sequence, total, a, b) => a <=? limit)
        (fun '(sequence, total, a, b) =>
           if a mod 2 =? 0
           then (sequence ++ [a], total + a, b, a + b)
           else (sequence, total, b, a + b))
        fuel ([], 0, 1, 2)
  = Some (filter is_even (fibs k), sumZ (filter is_even (fibs k)),
          fib k, fib (S k)).
Proof.
  intros Hcut Hfuel.
  assert (Hiter : forall j,
    Nat.iter j (fun '(sequence, total, a, b) =>
                  if a mod 2 =? 0
                  then (sequence ++ [a], total + a, b, a + b)
                  else (sequence, total, b, a + b)) ([], 0, 1, 2)
    = (filter is_even (fibs j), sumZ (filter is_even (fibs j)),
       fib j, fib (S j))).
  { induction j as [|j IH]; [reflexivity|].
    rewrite Nat.iter_succ, IH. cbv beta iota.
    rewrite fibs_S, filter_app. cbn [filter].
    fold (is_even (fib j)). destruct (is_even (fib j)).
    - rewrite sumZ_snoc, fib_SS. reflexivity.
    - rewrite app_nil_r, fib_SS. reflexivity. }
  apply while_result with (k := k); try assumption.
  - intros j Hj. rewrite Hiter. apply Z.leb_le, (cut_le_iff _ _ _ Hcut), Hj.
  - rewrite Hiter. apply Z.leb_gt, Hcut.
  - apply Hiter.
Qed.

Lemma fib_walk (n j : nat) :
  Nat.iter j (fun '(a, b) => (b, a + b)) (fib n, fib (S n))
  = (fib (j + n), fib (S (j + n))).
Proof.
  induction j as [|j IH]; [reflexivity|].
  rewrite Nat.iter_succ, IH. cbv beta iota.
  rewrite <- fib_SS. reflexivity.
Qed.

Lemma is_odd_fib (n : nat) :
  is_odd (fib n) = true <-> forall j, n <> (3 * j + 1)%nat.
Proof.
  rewrite is_odd_even, negb_true_iff, <- not_true_iff_false, is_even_fib.
  split.
  - intros H j Hj. apply H. now exists j.
  - intros H [j Hj]. now apply (H j).
Qed.

Lemma odd_lub_loop (k fuel : nat) :
  (2 <= fuel)%nat ->
  exists b',
    while (fun '(a, b) => a mod 2 =? 0)
          (fun '(a, b) => (b, a + b))
          fuel (fib k, fib k + last_or_zero (fibs k))
    = Some (if is_even (fib k) then fib (S k) else fib k, b').
Proof.
  intros Hfuel. destruct (is_even (fib k)) eqn:E.
  - pose proof E as E'. apply is_even_fib in E'. destruct E' as [j ->].
    replace (3 * j + 1)%nat with (S (3 * j)) in * by lia.
    rewrite last_fibs.
    replace (fib (S (3 * j)) + fib (3 * j)) with (fib (S (S (3 * j))))
      by (rewrite fib_SS; lia).
    eexists. apply while_result with (k := 1%nat); [| | reflexivity | lia].
    + intros i Hi. assert (i = 0%nat) as -> by lia. exact E.
    + cbn [Nat.iter nat_rect]. apply Z.eqb_neq.
      destruct (fib_parity_succ j) as (_ & _ & H2). lia.
  - eexists. apply while_result with (k := 0%nat); [| | reflexivity | lia].
    + intros i Hi. lia.
    + exact E.
Qed.

Lemma even_lub_loop (k fuel : nat) :
  (3 <= fuel)%nat ->
  exists b',
    while (fun '(a, b) => a mod 2 =? 1)
          (fun '(a, b) => (b, a + b))
          fuel (fib k, fib (S k))
    = Some (even_fib (even_count k), b').
Proof.
  intros Hfuel. pose proof (even_count_spec k) as Hk.
  eexists.
  apply while_result with (k := (3 * even_count k + 1 - k)%nat).
  - intros j Hj. rewrite fib_walk. apply is_odd_fib. lia.
  - rewrite fib_walk. fold (is_odd (fib (3 * even_count k + 1 - k + k))).
    rewrite is_odd_even. apply negb_false_iff, is_even_fib.
    exists (even_count k). lia.
  - rewrite fib_walk. unfold even_fib.
    replace (3 * even_count k + 1 - k + k)%nat with (3 * even_count k + 1)%nat
      by lia.
    reflexivity.
  - lia.
Qed.

(** ** What each function returns *)

Lemma fibonacci_all_run (limit : Z) (k fuel : nat) (clk : Clock) (t : nat) :
  is_cut limit k ->
  (k < fuel)%nat ->
  fibonacci_all fuel limit clk t
  = Returned (expected ALL limit k (elapsed ALL clk t), (reads ALL + t)%nat).
Proof.
  intros Hcut Hfuel. unfold fibonacci_all, bind, perf_counter, terminated.
  rewrite (all_loop limit k fuel) by assumption. reflexivity.
Qed.

Lemma fibonacci_even_optimized_run
      (limit : Z) (k fuel : nat) (clk : Clock) (t : nat) :
  is_cut limit k ->
  (k < fuel)%nat ->
  fibonacci_even_optimized fuel limit clk t
  = Returned (expected EVEN limit k (elapsed EVEN clk t), (reads EVEN + t)%nat).
Proof.
  intros Hcut Hfuel.
  unfold fibonacci_even_optimized, bind, perf_counter, terminated.
  rewrite (even_loop limit k fuel) by assumption. reflexivity.
Qed.

Lemma fibonacci_odd_difference_run
      (limit : Z) (k fuel : nat) (clk : Clock) (t : nat) :
  is_cut limit k ->
  (k < fuel)%nat ->
  (2 <= fuel)%nat ->
  fibonacci_odd_difference fuel limit clk t
  = Returned (expected ODD limit k (elapsed ODD clk t), (reads ODD + t)%nat).
Proof.
  intros Hcut Hfuel H2.
  unfold fibonacci_odd_difference, bind.
  unfold perf_counter at 1.
  rewrite (fibonacci_all_run limit k) by assumption.
  rewrite (fibonacci_even_optimized_run limit k) by assumption.
  cbn [expected lub glb sequence sum_value].
  destruct (odd_lub_loop k fuel H2) as [b' Hloop].
  unfold terminated. rewrite Hloop. reflexivity.
Qed.

Lemma fibonacci_even_filtered_run
      (limit : Z) (k fuel : nat) (clk : Clock) (t : nat) :
  is_cut limit k ->
  (k < fuel)%nat ->
  (3 <= fuel)%nat ->
  fibonacci_even_filtered fuel limit clk t
  = Returned (expected EVEN limit k (elapsed EVEN clk t), (reads EVEN + t)%nat).
Proof.
  intros Hcut Hfuel H3.
  unfold fibonacci_even_filtered, bind, perf_counter, terminated.
  rewrite (even_filter_loop limit k fuel) by assumption.
  destruct (even_lub_loop k fuel H3) as [b' Hloop].
  rewrite Hloop, filter_even_fibs. reflexivity.
Qed.

Lemma enough_cut (limit : Z) (k fuel : nat) :
  is_cut limit k -> enough limit fuel -> (k < fuel)%nat /\ (3 <= fuel)%nat.
Proof.
  intros Hcut Hfuel. unfold enough in Hfuel.
  destruct (cut_exists limit) as (k' & Hk' & Hcut').
  rewrite (cut_unique _ _ _ Hcut Hcut'). lia.
Qed.

Lemma analyze_run
      (f : FibonacciFilter) (limit : Z) (k fuel : nat) (clk : Clock) (t : nat) :
  is_cut limit k ->
  enough limit fuel ->
  analyze fuel limit (Member f) clk t
  = Returned (expected f limit k (elapsed f clk t), (reads f + t)%nat).
Proof.
  intros Hcut Hfuel. destruct (enough_cut _ _ _ Hcut Hfuel) as [Hk H3].
  unfold analyze, UnifiedFibonacciSolver.solve.
  cbn [UnifiedFibonacciSolver.limit].
  destruct f.
  - now apply fibonacci_all_run.
  - now apply fibonacci_even_optimized_run.
  - apply fibonacci_odd_difference_run; [assumption | assumption | lia].
Qed.

Lemma analyze_returns
      (f : FibonacciFilter) (limit : Z) (k fuel : nat) (clk : Clock) (t : nat) :
  is_cut limit k ->
  enough limit fuel ->
  returns (analyze fuel limit (Member f)) clk t
          (expected f limit k (elapsed f clk t)).
Proof.
  intros Hcut Hfuel. eexists. now apply analyze_run.
Qed.

(** ** Sorted lists *)

Lemma sorted_map_seq (g : nat -> Z) :
  (forall n m, (n < m)%nat -> g n < g m) ->
  forall size start, StronglySorted Z.lt (map g (seq start size)).
Proof.
  intros Hg size. induction size as [|size IH]; intros start; simpl.
  - constructor.
  - constructor; [apply IH|].
    apply Forall_forall. intros x Hx.
    apply in_map_iff in Hx. destruct Hx as (j & <- & Hj).
    apply in_seq in Hj. apply Hg. lia.
Qed.

Lemma sorted_filter (p : Z -> bool) (l : list Z) :
  StronglySorted Z.lt l -> StronglySorted Z.lt (filter p l).
Proof.
  induction 1 as [|x l Hl IH Hx]; simpl.
  - constructor.
  - destruct (p x); [|assumption].
    constructor; [assumption|].
    apply Forall_forall. intros y Hy. apply filter_In in Hy.
    rewrite Forall_forall in Hx. apply Hx, Hy.
Qed.

Lemma sorted_NoDup (l : list Z) : StronglySorted Z.lt l -> NoDup l.
Proof.
  induction 1 as [|x l Hl IH Hx]; constructor; [|assumption].
  intros Hin. rewrite Forall_forall in Hx. specialize (Hx x Hin). lia.
Qed.

Lemma sorted_fibs (k : nat) : StronglySorted Z.lt (fibs k).
Proof. apply sorted_map_seq, fib_lt. Qed.

Lemma sorted_evens (k : nat) : StronglySorted Z.lt (evens k).
Proof.
  apply sorted_map_seq. intros n m H. unfold even_fib. apply fib_lt. lia.
Qed.

Lemma sorted_expected (f : FibonacciFilter) (limit : Z) (k : nat) (time : float) :
  StronglySorted Z.lt (sequence (expected f limit k time)).
Proof.
  destruct f; cbn [expected sequence].
  - apply sorted_fibs.
  - apply sorted_evens.
  - apply sorted_filter, sorted_fibs.
Qed.

(** ** The elements of a result *)

Lemma expected_elements
      (f : FibonacciFilter) (limit : Z) (k : nat) (time : float) (x : Z) :
  is_cut limit k ->
  In x (sequence (expected f limit k time)) ->
  x <= limit /\ in_class f x.
Proof.
  intros Hcut. destruct f; cbn [expected sequence]; intros Hin.
  - apply in_fibs in Hin. destruct Hin as (j & Hj & ->).
    split; [now apply (cut_le_iff _ _ _ Hcut)|].
    split; [now exists j | exact I].
  - apply in_evens in Hin. destruct Hin as (j & Hj & ->).
    split; [now apply (even_cut _ _ _ Hcut)|].
    split; [now exists (3 * j + 1)%nat|]. apply fib_parity.
  - apply filter_In in Hin. destruct Hin as [Hin Hodd].
    apply in_fibs in Hin. destruct Hin as (j & Hj & ->).
    split; [now apply (cut_le_iff _ _ _ Hcut)|].
    split; [now exists j|]. now apply Z.eqb_eq.
Qed.

Lemma expected_sum (limit : Z) (k : nat) (tA tE tO : float) :
  sum_value (expected ALL limit k tA)
  = sum_value (expected EVEN limit k tE) + sum_value (expected ODD limit k tO).
Proof. cbn [expected sum_value]. lia. Qed.

Lemma expected_lub
      (f : FibonacciFilter) (limit : Z) (k : nat) (time : float) :
  is_cut limit k ->
  limit < lub (expected f limit k time) /\
  in_class f (lub (expected f limit k time)) /\
  forall y, in_class f y -> limit < y -> lub (expected f limit k time) <= y.
Proof.
  intros Hcut. pose proof Hcut as [Hlow Hk].
  assert (Habove : forall n, limit < fib n -> (k <= n)%nat).
  { intros n Hn. destruct (Nat.le_gt_cases k n) as [|Hlt]; [assumption|].
    apply Hlow in Hlt. lia. }
  destruct f; cbn [expected lub].
  - split; [assumption|]. split; [split; [now exists k | exact I]|].
    intros y [[n ->] _] Hy. apply fib_le, Habove, Hy.
  - pose proof (even_cut limit k (even_count k) Hcut) as Hself.
    split; [lia|]. split.
    + split; [now exists (3 * even_count k + 1)%nat | apply fib_parity].
    + intros y [[n ->] Heven] Hy. cbn [parity_ok] in Heven.
      apply fib_even_iff in Heven. destruct Heven as [j ->].
      pose proof (even_cut limit k j Hcut) as Hj. fold (even_fib j) in Hy.
      unfold even_fib. apply fib_le. lia.
  - destruct (is_even (fib k)) eqn:E.
    + pose proof E as E'. apply is_even_fib in E'. destruct E' as [j Hj].
      assert (Hodd : is_odd (fib (S k)) = true)
        by (apply is_odd_fib; intros i; lia).
      split; [pose proof (fib_pos_lt k); lia|]. split.
      * split; [now exists (S k) | now apply Z.eqb_eq].
      * intros y [[n ->] Hy1] Hy. cbn [parity_ok] in Hy1.
        apply fib_le. pose proof (Habove n Hy) as Hn.
        destruct (Nat.eq_dec n k) as [->|Hne]; [|lia].
        apply Z.eqb_eq in E. lia.
    + split; [assumption|]. split.
      * split; [now exists k|]. cbn [parity_ok].
        unfold is_even in E. apply Z.eqb_neq in E.
        destruct (fib_mod2 k); [contradiction | assumption].
      * intros y [[n ->] _] Hy. apply fib_le, Habove, Hy.
Qed.

(** ** The functions on the inputs of their docstrings *)

Example sum_multiples_below_10_3 :
  Euler1.sum_multiples_below 10 3 = Returned 18.
Proof. reflexivity. Qed.

Example calculate_sum_3_or_5_100 :
  Euler1.calculate_sum_3_or_5 100 = Returned 2318.
Proof. reflexivity. Qed.

Example sum_multiples_below_zero_divisor :
  Euler1.sum_multiples_below 10 0 = Raised ZeroDivisionError.
Proof. reflexivity. Qed.

Example fibonacci_odd_filtered_100 :
  exists r,
    returns (fibonacci_odd_filtered 20 100) still_clock 0 r /\
    sum_value r = 187 /\ count r = 7 /\ lub r = 233.
Proof.
  eexists. split; [unfold returns; eexists; vm_compute; reflexivity|].
  repeat split.
Qed.

Example even_sum_below_four_million :
  exists r,
    returns (analyze 40 DEFAULT_LIMIT (Member EVEN)) still_clock 0 r /\
    sum_value r = 4613732 /\ count r = 11.
Proof.
  eexists. split; [unfold returns; eexists; vm_compute; reflexivity|].
  repeat split.
Qed.

(** ** The claims about the Fibonacci module *)

(** C1.  For every bound of at least 1 the three calls of [analyze] return,
    and the sum of the ALL result is the sum of the EVEN result plus the sum
    of the ODD result, so that [verify_results] accepts them; the three calls
    may read the clock anywhere. *)
Theorem sum_all_is_even_plus_odd
        (bound : Z) (fuel : nat) (clkA clkE clkO : Clock) (tA tE tO : nat) :
  1 <= bound ->
  enough bound fuel ->
  exists all_result even_result odd_result,
    returns (analyze fuel bound (Member ALL)) clkA tA all_result /\
    returns (analyze fuel bound (Member EVEN)) clkE tE even_result /\
    returns (analyze fuel bound (Member ODD)) clkO tO odd_result /\
    sum_value all_result = sum_value even_result + sum_value odd_result /\
    UnifiedFibonacciSolver.verify_results all_result even_result odd_result
    = true.
Proof.
  intros _ Hfuel. destruct (cut_exists bound) as (k & _ & Hcut).
  exists (expected ALL bound k (elapsed ALL clkA tA)),
         (expected EVEN bound k (elapsed EVEN clkE tE)),
         (expected ODD bound k (elapsed ODD clkO tO)).
  repeat split; try (now apply analyze_returns).
  - apply expected_sum.
  - apply Z.eqb_eq, expected_sum.
Qed.

Lemma sum_all_is_even_plus_odd_witness :
  exists all_result even_result odd_result,
    returns (analyze 13 10 (Member ALL)) still_clock 0 all_result /\
    returns (analyze 13 10 (Member EVEN)) still_clock 0 even_result /\
    returns (analyze 13 10 (Member ODD)) still_clock 0 odd_result /\
    sum_value all_result = sum_value even_result + sum_value odd_result /\
    UnifiedFibonacciSolver.verify_results all_result even_result odd_result
    = true.
Proof.
  apply (sum_all_is_even_plus_odd 10 13 still_clock still_clock still_clock
           0 0 0); [lia | unfold enough; simpl; lia].
Defined.

(** C2.  For every bound of at least 1, [fibonacci_even_optimized] (the
    recurrence from (2, 8) with step (a, b) -> (b, 4b + a)) and
    [fibonacci_even_filtered] (the recurrence from (1, 2), keeping the even
    terms) both return, with the same sequence and the same sum; that
    sequence is the sequence of [fibonacci_all] with the odd terms removed. *)
Theorem even_optimized_is_even_filtered
        (bound : Z) (fuel : nat) (clk clk' clk'' : Clock) (t t' t'' : nat) :
  1 <= bound ->
  enough bound fuel ->
  exists optimized filtered all_result,
    returns (fibonacci_even_optimized fuel bound) clk t optimized /\
    returns (fibonacci_even_filtered fuel bound) clk' t' filtered /\
    returns (fibonacci_all fuel bound) clk'' t'' all_result /\
    sequence optimized = sequence filtered /\
    sum_value optimized = sum_value filtered /\
    sequence optimized = filter is_even (sequence all_result).
Proof.
  intros _ Hfuel. destruct (cut_exists bound) as (k & _ & Hcut).
  destruct (enough_cut _ _ _ Hcut Hfuel) as [Hk H3].
  exists (expected EVEN bound k (elapsed EVEN clk t)),
         (expected EVEN bound k (elapsed EVEN clk' t')),
         (expected ALL bound k (elapsed ALL clk'' t'')).
  repeat split.
  - eexists. now apply fibonacci_even_optimized_run.
  - eexists. now apply fibonacci_even_filtered_run.
  - eexists. now apply fibonacci_all_run.
  - cbn [expected sequence]. symmetry. apply filter_even_fibs.
Qed.

Lemma even_optimized_is_even_filtered_witness :
  exists optimized filtered all_result,
    returns (fibonacci_even_optimized 13 10) still_clock 0 optimized /\
    returns (fibonacci_even_filtered 13 10) still_clock 0 filtered /\
    returns (fibonacci_all 13 10) still_clock 0 all_result /\
    sequence optimized = sequence filtered /\
    sum_value optimized = sum_value filtered /\
    sequence optimized = filter is_even (sequence all_result).
Proof.
  apply (even_optimized_is_even_filtered 10 13 still_clock still_clock
           still_clock 0 0 0); [lia | unfold enough; simpl; lia].
Defined.

(** C3, as the specification states it, fails: a bound below 1 is not
    rejected.  [analyze(0, ALL)] returns a result, with an empty sequence,
    and raises nothing. *)
Lemma analyze_bound_zero_returns :
  0 < 1 /\
  returns (analyze 3 0 (Member ALL)) still_clock 0
          {| filter_type := ALL; sum_value := 0; sequence := []; count := 0;
             glb := 0; lub := 1; limit := 0;
             computation_time := PrimFloat.sub 0 0 |} /\
  ~ raises (analyze 3 0 (Member ALL)) still_clock 0.
Proof.
  split; [lia|]. split.
  - exists 2%nat. reflexivity.
  - intros [e H]. discriminate H.
Qed.

(** C3, amended.  [analyze] raises an exception if and only if the filter is
    not a member of the enumeration, and the exception is then the
    [ValueError] of [solve]; for every bound, also one below 1, and every
    member of the enumeration the call returns a result, whose sequence is
    empty and whose sum is 0 when the bound is below 1. *)
Theorem analyze_raises_iff_foreign_filter
        (bound : Z) (fuel : nat) (filter : filter_arg) (clk : Clock) (t : nat) :
  enough bound fuel ->
  (raises (analyze fuel bound filter) clk t <->
   exists str, filter = Foreign str) /\
  (forall str,
      filter = Foreign str ->
      analyze fuel bound filter clk t
      = Raised (ValueError ("Unknown filter type: " ++ str)%string)) /\
  (forall f,
      filter = Member f ->
      exists r,
        returns (analyze fuel bound filter) clk t r /\
        (bound < 1 -> sequence r = [] /\ sum_value r = 0)).
Proof.
  intros Hfuel. destruct (cut_exists bound) as (k & _ & Hcut).
  assert (Hmember : forall f,
    exists r, returns (analyze fuel bound (Member f)) clk t r /\
              (bound < 1 -> sequence r = [] /\ sum_value r = 0)).
  { intros f. exists (expected f bound k (elapsed f clk t)).
    split; [now apply analyze_returns|].
    intros Hlow. assert (k = 0%nat) as ->.
    { destruct k as [|k]; [reflexivity|].
      destruct Hcut as [Hbelow _]. specialize (Hbelow 0%nat ltac:(lia)).
      simpl in Hbelow. lia. }
    destruct f; split; reflexivity. }
  repeat split.
  - intros [e He]. destruct filter as [f|str]; [|now exists str].
    destruct (Hmember f) as (r & [t' Hr] & _). congruence.
  - intros [str ->]. eexists. reflexivity.
  - intros str ->. reflexivity.
  - intros f ->. apply Hmember.
Qed.

Lemma analyze_raises_iff_foreign_filter_witness :
  (raises (analyze 3 0 (Foreign "both")) still_clock 0 <->
   exists str, Foreign "both" = Foreign str) /\
  (forall str,
      Foreign "both" = Foreign str ->
      analyze 3 0 (Foreign "both") still_clock 0%nat
      = Raised (ValueError ("Unknown filter type: " ++ str)%string)) /\
  (forall f,
      Foreign "both" = Member f ->
      exists r,
        returns (analyze 3 0 (Foreign "both")) still_clock 0 r /\
        (0 < 1 -> sequence r = [] /\ sum_value r = 0)).
Proof.
  apply (analyze_raises_iff_foreign_filter 0 3 (Foreign "both") still_clock 0).
  unfold enough. simpl. lia.
Defined.

(** C4.  What the code computes at the concrete cases of the specification:
    [analyze(100, ALL)] has sum 231 and count 10, and its sequence ends in
    89; [analyze(100, EVEN)] has sum 44 and sequence [2, 8, 34];
    [analyze(100, ODD)] has sum 187 and count 7; [analyze(10, ALL)] has
    sequence [1, 2, 3, 5, 8] and sum 19.  The docstrings of [fibonacci_all]
    and [fibonacci_odd_filtered] announce 232 and 12, and 188 and 8. *)
Theorem concrete_cases_computed (clk : Clock) (t : nat) :
  (exists r,
      returns (analyze 103 100 (Member ALL)) clk t r /\
      sum_value r = 231 /\ count r = 10 /\ last (sequence r) 0 = 89 /\
      sequence r = [1; 2; 3; 5; 8; 13; 21; 34; 55; 89]) /\
  (exists r,
      returns (analyze 103 100 (Member EVEN)) clk t r /\
      sum_value r = 44 /\ sequence r = [2; 8; 34]) /\
  (exists r,
      returns (analyze 103 100 (Member ODD)) clk t r /\
      sum_value r = 187 /\ count r = 7 /\
      sequence r = [1; 3; 5; 13; 21; 55; 89]) /\
  (exists r,
      returns (analyze 13 10 (Member ALL)) clk t r /\
      sequence r = [1; 2; 3; 5; 8] /\ sum_value r = 19).
Proof.
  repeat split;
    (eexists; split;
     [ unfold returns; eexists; vm_compute; reflexivity
     | repeat split; reflexivity ]).
Qed.

(** C5.  For every bound of at least 1 and every filter, [analyze] returns a
    result whose [lub] is above the bound, belongs to the filtered class
    (a term of the sequence seeded (1, 2), of the parity of the filter) and
    is at most every member of that class that is above the bound. *)
Theorem lub_is_least_above
        (bound : Z) (fuel : nat) (f : FibonacciFilter) (clk : Clock) (t : nat) :
  1 <= bound ->
  enough bound fuel ->
  exists r,
    returns (analyze fuel bound (Member f)) clk t r /\
    bound < lub r /\
    in_class f (lub r) /\
    forall y, in_class f y -> bound < y -> lub r <= y.
Proof.
  intros _ Hfuel. destruct (cut_exists bound) as (k & _ & Hcut).
  exists (expected f bound k (elapsed f clk t)).
  split; [now apply analyze_returns | now apply expected_lub].
Qed.

Lemma lub_is_least_above_witness :
  exists r,
    returns (analyze 13 10 (Member ODD)) still_clock 0 r /\
    10 < lub r /\
    in_class ODD (lub r) /\
    forall y, in_class ODD y -> 10 < y -> lub r <= y.
Proof.
  apply (lub_is_least_above 10 13 ODD still_clock 0);
    [lia | unfold enough; simpl; lia].
Defined.

(** C6.  For every bound of at least 1 and every filter, [analyze] returns a
    result every element of whose sequence is at most the bound and has the
    parity of the filter: even for EVEN, odd for ODD, any for ALL. *)
Theorem sequence_within_bound_and_parity
        (bound : Z) (fuel : nat) (f : FibonacciFilter) (clk : Clock) (t : nat) :
  1 <= bound ->
  enough bound fuel ->
  exists r,
    returns (analyze fuel bound (Member f)) clk t r /\
    forall x, In x (sequence r) -> x <= bound /\ parity_ok f x.
Proof.
  intros _ Hfuel. destruct (cut_exists bound) as (k & _ & Hcut).
  exists (expected f bound k (elapsed f clk t)).
  split; [now apply analyze_returns|].
  intros x Hx. destruct (expected_elements _ _ _ _ _ Hcut Hx) as (Hle & _ & Hp).
  now split.
Qed.

Lemma sequence_within_bound_and_parity_witness :
  exists r,
    returns (analyze 13 10 (Member EVEN)) still_clock 0 r /\
    forall x, In x (sequence r) -> x <= 10 /\ parity_ok EVEN x.
Proof.
  apply (sequence_within_bound_and_parity 10 13 EVEN still_clock 0);
    [lia | unfold enough; simpl; lia].
Defined.

(** C7.  For every bound of at least 1 and every filter, [analyze] returns a
    result whose sequence is strictly increasing: each element is less than
    the next one, and than every later one, so no element occurs twice. *)
Theorem sequence_strictly_increasing
        (bound : Z) (fuel : nat) (f : FibonacciFilter) (clk : Clock) (t : nat) :
  1 <= bound ->
  enough bound fuel ->
  exists r,
    returns (analyze fuel bound (Member f)) clk t r /\
    Sorted Z.lt (sequence r) /\
    StronglySorted Z.lt (sequence r) /\
    NoDup (sequence r).
Proof.
  intros _ Hfuel. destruct (cut_exists bound) as (k & _ & Hcut).
  exists (expected f bound k (elapsed f clk t)).
  pose proof (sorted_expected f bound k (elapsed f clk t)) as Hs.
  split; [now apply analyze_returns|].
  split; [now apply StronglySorted_Sorted|].
  split; [assumption | now apply sorted_NoDup].
Qed.

Lemma sequence_strictly_increasing_witness :
  exists r,
    returns (analyze 13 10 (Member ALL)) still_clock 0 r /\
    Sorted Z.lt (sequence r) /\
    StronglySorted Z.lt (sequence r) /\
    NoDup (sequence r).
Proof.
  apply (sequence_strictly_increasing 10 13 ALL still_clock 0);
    [lia | unfold enough; simpl; lia].
Defined.

(** C8.  [analyze(1, EVEN)] returns, without raising, a result with an empty
    sequence, sum 0, count 0, glb 0 and lub 2: the even recurrence stops at
    its seed. *)
Theorem analyze_one_even
        (fuel : nat) (clk : Clock) (t : nat) :
  (1 <= fuel)%nat ->
  exists r,
    returns (analyze fuel 1 (Member EVEN)) clk t r /\
    sequence r = [] /\ sum_value r = 0 /\ count r = 0 /\
    glb r = 0 /\ lub r = 2.
Proof.
  intros Hfuel. destruct fuel as [|fuel]; [lia|].
  exists {| filter_type := EVEN; sum_value := 0; sequence := []; count := 0;
            glb := 0; lub := 2; limit := 1;
            computation_time := elapsed EVEN clk t |}.
  split; [exists (S (S t)); reflexivity|].
  repeat split.
Qed.

Lemma analyze_one_even_witness :
  exists r,
    returns (analyze 1 1 (Member EVEN)) still_clock 0 r /\
    sequence r = [] /\ sum_value r = 0 /\ count r = 0 /\
    glb r = 0 /\ lub r = 2.
Proof.
  apply (analyze_one_even 1 still_clock 0). lia.
Defined.

(** C9, as the specification states it, fails on the record of the source:
    its field [computation_time] is the difference of two readings of the
    clock.  Two calls of [analyze(1, ALL)], the second one made when the
    first has returned, give records that differ in that field. *)
Lemma analyze_twice_differs :
  1 <= 1 /\
  exists r1 r2,
    analyze 4 1 (Member ALL) ticking_clock 0%nat = Returned (r1, 2%nat) /\
    analyze 4 1 (Member ALL) ticking_clock 2%nat = Returned (r2, 4%nat) /\
    computation_time r1 <> computation_time r2 /\
    r1 <> r2.
Proof.
  split; [lia|].
  assert (Hne : PrimFloat.sub 1 0 <> PrimFloat.sub 4 2).
  { intros H.
    apply (f_equal (fun x => PrimFloat.eqb x 1%float)) in H.
    vm_compute in H. discriminate H. }
  exists {| filter_type := ALL; sum_value := 1; sequence := [1]; count := 1;
            glb := 1; lub := 2; limit := 1;
            computation_time := PrimFloat.sub 1 0 |},
         {| filter_type := ALL; sum_value := 1; sequence := [1]; count := 1;
            glb := 1; lub := 2; limit := 1;
            computation_time := PrimFloat.sub 4 2 |}.
  split; [reflexivity|]. split; [reflexivity|].
  split; [exact Hne|].
  intros H. apply (f_equal computation_time) in H. exact (Hne H).
Qed.

(** C9, amended.  For every bound of at least 1 and every filter, two calls
    of [analyze] with the same arguments return, and the two records agree
    on the fields [filter_type], [sum_value], [sequence], [count], [glb],
    [lub] and [limit]; [computation_time] is in each the time that elapsed
    on the clock during the call, so that the records are equal when these
    times are. *)
Theorem analyze_twice_agrees
        (bound : Z) (fuel : nat) (f : FibonacciFilter)
        (clk1 clk2 : Clock) (t1 t2 : nat) :
  1 <= bound ->
  enough bound fuel ->
  exists r1 r2,
    returns (analyze fuel bound (Member f)) clk1 t1 r1 /\
    returns (analyze fuel bound (Member f)) clk2 t2 r2 /\
    filter_type r1 = filter_type r2 /\
    sum_value r1 = sum_value r2 /\
    sequence r1 = sequence r2 /\
    count r1 = count r2 /\
    glb r1 = glb r2 /\
    lub r1 = lub r2 /\
    limit r1 = limit r2 /\
    computation_time r1 = elapsed f clk1 t1 /\
    computation_time r2 = elapsed f clk2 t2 /\
    (elapsed f clk1 t1 = elapsed f clk2 t2 -> r1 = r2).
Proof.
  intros _ Hfuel. destruct (cut_exists bound) as (k & _ & Hcut).
  exists (expected f bound k (elapsed f clk1 t1)),
         (expected f bound k (elapsed f clk2 t2)).
  split; [now apply analyze_returns|].
  split; [now apply analyze_returns|].
  destruct f; cbn [expected filter_type sum_value sequence count glb lub
                   limit computation_time];
    repeat split; intros ->; reflexivity.
Qed.

Lemma analyze_twice_agrees_witness :
  exists r1 r2,
    returns (analyze 4 1 (Member ALL)) ticking_clock 0 r1 /\
    returns (analyze 4 1 (Member ALL)) ticking_clock 2 r2 /\
    filter_type r1 = filter_type r2 /\
    sum_value r1 = sum_value r2 /\
    sequence r1 = sequence r2 /\
    count r1 = count r2 /\
    glb r1 = glb r2 /\
    lub r1 = lub r2 /\
    limit r1 = limit r2 /\
    computation_time r1 = elapsed ALL ticking_clock 0 /\
    computation_time r2 = elapsed ALL ticking_clock 2 /\
    (elapsed ALL ticking_clock 0 = elapsed ALL ticking_clock 2 -> r1 = r2).
Proof.
  apply (analyze_twice_agrees 1 4 ALL ticking_clock ticking_clock 0 2);
    [lia | unfold enough; simpl; lia].
Defined.

(** ** Problem 1: the closed form against the sum it stands for *)

Lemma triangle_scaled (m k : Z) : m * k * (k + 1) / 2 = m * triangle k.
Proof.
  unfold triangle. destruct (Z.Even_or_Odd k) as [[q ->]|[q ->]].
  - replace (m * (2 * q) * (2 * q + 1)) with (m * (q * (2 * q + 1)) * 2)
      by ring.
    replace (2 * q * (2 * q + 1)) with (q * (2 * q + 1) * 2) by ring.
    now rewrite !Z.div_mul by lia.
  - replace (m * (2 * q + 1) * (2 * q + 1 + 1))
      with (m * ((2 * q + 1) * (q + 1)) * 2) by ring.
    replace ((2 * q + 1) * (2 * q + 1 + 1))
      with ((2 * q + 1) * (q + 1) * 2) by ring.
    now rewrite !Z.div_mul by lia.
Qed.

Lemma triangle_succ (q : Z) : triangle (q + 1) = triangle q + (q + 1).
Proof.
  unfold triangle.
  replace ((q + 1) * (q + 1 + 1)) with (q * (q + 1) + (q + 1) * 2) by ring.
  now rewrite Z.div_add by lia.
Qed.

Lemma div_succ_multiple (m x : Z) :
  1 <= m -> (x + 1) mod m = 0 -> x / m = (x + 1) / m - 1.
Proof.
  intros Hm H. pose proof (Z.div_mod (x + 1) m ltac:(lia)) as E.
  rewrite H in E. symmetry.
  apply Z.div_unique with (r := m - 1); [lia | lia].
Qed.

Lemma div_succ_other (m x : Z) :
  1 <= m -> (x + 1) mod m <> 0 -> x / m = (x + 1) / m.
Proof.
  intros Hm H. pose proof (Z.div_mod (x + 1) m ltac:(lia)) as E.
  pose proof (Z.mod_pos_bound (x + 1) m ltac:(lia)) as B. symmetry.
  apply Z.div_unique with (r := (x + 1) mod m - 1); [lia | lia].
Qed.

Lemma sum_multiples_upto (m : Z) (N : nat) :
  1 <= m ->
  sumZ (filter (multiple_of m) (map Z.of_nat (seq 1 N)))
  = m * triangle (Z.of_nat N / m).
Proof.
  intros Hm. induction N as [|N IH].
  - cbn [seq map filter]. change (Z.of_nat 0) with 0.
    rewrite Z.div_0_l by lia. change (triangle 0) with 0.
    unfold sumZ. simpl. lia.
  - rewrite seq_S, map_app, filter_app, sumZ_app, IH.
    cbn [map filter]. unfold multiple_of at 1.
    replace (Z.of_nat (1 + N)) with (Z.of_nat N + 1) by lia.
    replace (Z.of_nat (S N)) with (Z.of_nat N + 1) by lia.
    destruct (Z.eqb_spec ((Z.of_nat N + 1) mod m) 0) as [E|E].
    + rewrite (div_succ_multiple m (Z.of_nat N) Hm E).
      pose proof (Z.div_mod (Z.of_nat N + 1) m ltac:(lia)) as D.
      rewrite E in D.
      pose proof (triangle_succ ((Z.of_nat N + 1) / m - 1)) as T.
      replace ((Z.of_nat N + 1) / m - 1 + 1) with ((Z.of_nat N + 1) / m)
        in T by lia.
      rewrite T. unfold sumZ. simpl. lia.
    + rewrite (div_succ_other m (Z.of_nat N) Hm E). unfold sumZ. simpl. lia.
Qed.

Lemma sum_below_multiples (n m : Z) :
  1 <= n -> 1 <= m ->
  sum_below (multiple_of m) n = m * triangle ((n - 1) / m).
Proof.
  intros Hn Hm. unfold sum_below. rewrite sum_multiples_upto by assumption.
  replace (Z.of_nat (Z.to_nat n - 1)) with (n - 1) by lia. reflexivity.
Qed.

Lemma sum_below_nothing (p : Z -> bool) (n : Z) : n <= 1 -> sum_below p n = 0.
Proof.
  intros Hn. unfold sum_below.
  replace (Z.to_nat n - 1)%nat with 0%nat by lia. reflexivity.
Qed.

Lemma sum_multiples_below_run (n m : Z) :
  1 <= m ->
  Euler1.sum_multiples_below n m = Returned (sum_below (multiple_of m) n).
Proof.
  intros Hm. unfold Euler1.sum_multiples_below, Euler1.floordiv.
  destruct (Z.leb_spec n m) as [Hle|Hlt].
  - destruct (Z_lt_le_dec n 1) as [Hn|Hn].
    + now rewrite sum_below_nothing by lia.
    + rewrite sum_below_multiples by assumption.
      rewrite Z.div_small by lia. change (triangle 0) with 0.
      now rewrite Z.mul_0_r.
  - destruct (Z.eqb_spec m 0) as [E|_]; [lia|].
    rewrite sum_below_multiples, triangle_scaled by lia. reflexivity.
Qed.

Lemma sumZ_filter_or (p q : Z -> bool) (l : list Z) :
  sumZ (filter (fun x => p x || q x) l)
  = sumZ (filter p l) + sumZ (filter q l)
    - sumZ (filter (fun x => p x && q x) l).
Proof.
  unfold sumZ. induction l as [|x l IH]; [reflexivity|].
  cbn [filter]. destruct (p x), (q x); simpl; lia.
Qed.

Lemma multiple_of_15 (x : Z) :
  multiple_of 15 x = multiple_of 3 x && multiple_of 5 x.
Proof.
  unfold multiple_of.
  destruct (Z.eqb_spec (x mod 15) 0), (Z.eqb_spec (x mod 3) 0),
    (Z.eqb_spec (x mod 5) 0); simpl; try reflexivity; exfalso;
    Z.div_mod_to_equations; lia.
Qed.

Lemma sum_below_3_or_5 (n : Z) :
  sum_below multiple_of_3_or_5 n
  = sum_below (multiple_of 3) n + sum_below (multiple_of 5) n
    - sum_below (multiple_of 15) n.
Proof.
  unfold sum_below, multiple_of_3_or_5. rewrite sumZ_filter_or.
  f_equal. f_equal. apply filter_ext. intros x. symmetry. apply multiple_of_15.
Qed.

(** C10.  For every n of at least 1, [calculate_sum_3_or_5(n)] returns the
    sum of the positive integers below n that are divisible by 3 or by 5;
    for every m of at least 1 and every n', [sum_multiples_below(n', m)]
    returns the sum of the positive multiples of m below n', which is 0
    when n' <= m. *)
Theorem sums_of_multiples (n n' m : Z) :
  1 <= n ->
  1 <= m ->
  Euler1.calculate_sum_3_or_5 n = Returned (sum_below multiple_of_3_or_5 n) /\
  Euler1.sum_multiples_below n' m = Returned (sum_below (multiple_of m) n') /\
  (n' <= m ->
   Euler1.sum_multiples_below n' m = Returned 0 /\
   sum_below (multiple_of m) n' = 0).
Proof.
  intros Hn Hm. split; [|split].
  - unfold Euler1.calculate_sum_3_or_5.
    rewrite !sum_multiples_below_run by lia.
    now rewrite sum_below_3_or_5.
  - now apply sum_multiples_below_run.
  - intros Hle.
    assert (H : Euler1.sum_multiples_below n' m = Returned 0).
    { unfold Euler1.sum_multiples_below.
      destruct (Z.leb_spec n' m); [reflexivity | lia]. }
    split; [assumption|].
    rewrite sum_multiples_below_run in H by assumption. congruence.
Qed.

Lemma sums_of_multiples_witness :
  Euler1.calculate_sum_3_or_5 10 = Returned (sum_below multiple_of_3_or_5 10) /\
  Euler1.sum_multiples_below 10 3 = Returned (sum_below (multiple_of 3) 10) /\
  (10 <= 3 ->
   Euler1.sum_multiples_below 10 3 = Returned 0 /\
   sum_below (multiple_of 3) 10 = 0).
Proof.
  apply (sums_of_multiples 10 10 3); lia.
Defined.

(** ** Problem 1: every integer, and the test cases *)

Lemma calculate_sum_3_or_5_run (n : Z) :
  Euler1.calculate_sum_3_or_5 n = Returned (sum_below multiple_of_3_or_5 n).
Proof.
  unfold Euler1.calculate_sum_3_or_5.
  rewrite !sum_multiples_below_run by lia. now rewrite sum_below_3_or_5.
Qed.

Lemma sumZ_filter_nat_nonneg (p : Z -> bool) (l : list nat) :
  0 <= sumZ (filter p (map Z.of_nat l)).
Proof.
  unfold sumZ. induction l as [|x l IH]; simpl; [lia|].
  destruct (p (Z.of_nat x)); simpl; lia.
Qed.

Lemma sum_below_nonneg (p : Z -> bool) (n : Z) : 0 <= sum_below p n.
Proof. apply sumZ_filter_nat_nonneg. Qed.

Lemma sum_below_mono (p : Z -> bool) (n n' : Z) :
  n <= n' -> sum_below p n <= sum_below p n'.
Proof.
  intros Hle. unfold sum_below.
  replace (Z.to_nat n' - 1)%nat
    with ((Z.to_nat n - 1) + (Z.to_nat n' - 1 - (Z.to_nat n - 1)))%nat by lia.
  rewrite seq_app, map_app, filter_app, sumZ_app.
  pose proof (sumZ_filter_nat_nonneg p
    (seq (1 + (Z.to_nat n - 1)) (Z.to_nat n' - 1 - (Z.to_nat n - 1)))).
  lia.
Qed.

Lemma dict_get_set (d : Euler1.dict) (key value key' : Z) :
  Euler1.dict_get (Euler1.dict_set d key value) key'
  = if key =? key' then inr value else Euler1.dict_get d key'.
Proof.
  induction d as [|[k v] d IH]; simpl.
  - reflexivity.
  - destruct (Z.eqb_spec k key) as [->|Hk]; simpl.
    + destruct (Z.eqb_spec key key'); reflexivity.
    + rewrite IH.
      destruct (Z.eqb_spec k key') as [->|Hk']; [|reflexivity].
      destruct (Z.eqb_spec key key'); [congruence | reflexivity].
Qed.

Lemma unique_sums_from_spec (keys : list Z) :
  forall d : Euler1.dict,
  exists d',
    Euler1.unique_sums_from d keys = inr d' /\
    (forall n, In n keys ->
               Euler1.dict_get d' n = inr (sum_below multiple_of_3_or_5 n)) /\
    (forall n, ~ In n keys -> Euler1.dict_get d' n = Euler1.dict_get d n).
Proof.
  induction keys as [|k keys IH]; intros d.
  - exists d. split; [reflexivity|]. split; [intros n []|reflexivity].
  - cbn [Euler1.unique_sums_from].
    rewrite calculate_sum_3_or_5_run. cbn [Euler1.completed].
    destruct (IH (Euler1.dict_set d k (sum_below multiple_of_3_or_5 k)))
      as (d' & Hrun & Hin & Hout).
    exists d'. split; [assumption|]. split.
    + intros n Hn. destruct (in_dec Z.eq_dec n keys) as [Hk|Hk].
      * now apply Hin.
      * rewrite (Hout n Hk), dict_get_set.
        destruct Hn as [->|Hn]; [|contradiction].
        now rewrite Z.eqb_refl.
    + intros n Hn. rewrite Hout by (intros H; apply Hn; now right).
      rewrite dict_get_set.
      destruct (Z.eqb_spec k n) as [->|_]; [|reflexivity].
      exfalso. apply Hn. now left.
Qed.

Lemma lookup_all_map (d : Euler1.dict) (f : Z -> Z) (test_cases : list Z) :
  (forall n, In n test_cases -> Euler1.dict_get d n = inr (f n)) ->
  Euler1.lookup_all d test_cases = inr (map f test_cases).
Proof.
  induction test_cases as [|n rest IH]; intros H; [reflexivity|].
  cbn [Euler1.lookup_all map].
  rewrite (H n) by now left.
  rewrite IH by (intros m Hm; apply H; now right). reflexivity.
Qed.

(** X1.  [solve_test_cases] returns, for each test case and in the order of
    the test cases, the sum of the positive multiples of 3 or 5 below it,
    whatever the order in which the set of the test cases is iterated and
    however often a value is repeated; it raises nothing. *)
Theorem solve_test_cases_in_order (set_order test_cases : list Z) :
  incl test_cases set_order ->
  Euler1.solve_test_cases set_order test_cases
  = inr (map (sum_below multiple_of_3_or_5) test_cases).
Proof.
  intros Hincl. unfold Euler1.solve_test_cases.
  destruct (unique_sums_from_spec set_order []) as (d & -> & Hin & _).
  apply lookup_all_map. intros n Hn. apply Hin, Hincl, Hn.
Qed.

Lemma solve_test_cases_in_order_witness :
  Euler1.solve_test_cases [100; 10] [10; 100; 10]
  = inr (map (sum_below multiple_of_3_or_5) [10; 100; 10]).
Proof.
  apply (solve_test_cases_in_order [100; 10] [10; 100; 10]).
  intros n Hn. simpl in *. lia.
Defined.

(** X2.  [sum_multiples_below(n, m)] raises [ZeroDivisionError] exactly when
    m is 0 and n is positive, and returns a value in every other case: the
    guard [n <= m] answers 0 before the division for n <= 0 = m. *)
Theorem sum_multiples_below_raises_iff (n m : Z) :
  (Euler1.sum_multiples_below n m = Raised ZeroDivisionError <->
   m = 0 /\ 0 < n) /\
  ((exists v, Euler1.sum_multiples_below n m = Returned v) <->
   ~ (m = 0 /\ 0 < n)).
Proof.
  unfold Euler1.sum_multiples_below, Euler1.floordiv.
  destruct (Z.leb_spec n m) as [Hle|Hlt].
  - split; split.
    + discriminate.
    + intros [-> Hn]. lia.
    + intros _ [-> Hn]. lia.
    + intros _. now exists 0.
  - destruct (Z.eqb_spec m 0) as [->|Hm].
    + split; split.
      * intros _. split; [reflexivity | assumption].
      * reflexivity.
      * intros [v H]. discriminate.
      * intros H. exfalso. apply H. split; [reflexivity | assumption].
    + change (2 =? 0) with false. cbv iota. split; split.
      * discriminate.
      * intros [H _]. contradiction.
      * intros _ [H _]. contradiction.
      * intros _. eexists. reflexivity.
Qed.

(** X3.  [calculate_sum_3_or_5] returns for every integer n, also 0 and the
    negative ones, and never raises; the value is the sum of the positive
    multiples of 3 or 5 below n, it is not negative, and it is 0 for every
    n up to 3. *)
Theorem calculate_sum_3_or_5_every_integer (n : Z) :
  exists v,
    Euler1.calculate_sum_3_or_5 n = Returned v /\
    v = sum_below multiple_of_3_or_5 n /\
    0 <= v /\
    (v = 0 \/ 3 < n).
Proof.
  exists (sum_below multiple_of_3_or_5 n).
  split; [apply calculate_sum_3_or_5_run|]. split; [reflexivity|].
  split; [apply sum_below_nonneg|].
  destruct (Z_le_gt_dec n 3) as [Hle|Hgt]; [left | right; lia].
  destruct (Z_le_gt_dec n 1) as [H1|H1]; [now apply sum_below_nothing|].
  assert (n = 2 \/ n = 3) as [-> | ->] by lia; reflexivity.
Qed.

(** X4.  [calculate_sum_3_or_5] is monotone: a larger bound never gives a
    smaller sum. *)
Theorem calculate_sum_3_or_5_monotone (n n' : Z) :
  n <= n' ->
  exists v v',
    Euler1.calculate_sum_3_or_5 n = Returned v /\
    Euler1.calculate_sum_3_or_5 n' = Returned v' /\
    v <= v'.
Proof.
  intros Hle. exists (sum_below multiple_of_3_or_5 n),
                     (sum_below multiple_of_3_or_5 n').
  split; [apply calculate_sum_3_or_5_run|].
  split; [apply calculate_sum_3_or_5_run|].
  now apply sum_below_mono.
Qed.

Lemma calculate_sum_3_or_5_monotone_witness :
  exists v v',
    Euler1.calculate_sum_3_or_5 10 = Returned v /\
    Euler1.calculate_sum_3_or_5 100 = Returned v' /\
    v <= v'.
Proof.
  apply (calculate_sum_3_or_5_monotone 10 100). lia.
Defined.

(** ** Even and odd terms of a list *)

Lemma sumZ_parity (l : list Z) :
  sumZ l = sumZ (filter is_even l) + sumZ (filter is_odd l).
Proof.
  unfold sumZ. induction l as [|x l IH]; [reflexivity|].
  cbn [filter]. rewrite is_odd_even.
  destruct (is_even x); simpl; lia.
Qed.

Lemma length_parity (l : list Z) :
  List.length l
  = (List.length (filter is_even l) + List.length (filter is_odd l))%nat.
Proof.
  induction l as [|x l IH]; [reflexivity|].
  cbn [filter]. rewrite is_odd_even.
  destruct (is_even x); simpl; lia.
Qed.

Lemma sumZ_odd_fibs (k : nat) :
  sumZ (filter is_odd (fibs k)) = sumZ (fibs k) - sumZ (evens (even_count k)).
Proof.
  rewrite (sumZ_parity (fibs k)), filter_even_fibs. lia.
Qed.

(** ** The filtering odd algorithm *)

Lemma odd_filter_loop (limit : Z) (k fuel : nat) :
  is_cut limit k ->
  (k < fuel)%nat ->
  while (fun '(sequence, total, a, b) => a <=? limit)
        (fun '(sequence, total, a, b) =>
           if a mod 2 =? 1
           then (sequence ++ [a], total + a, b, a + b)
           else (sequence, total, b, a + b))
        fuel ([], 0, 1, 2)
  = Some (filter is_odd (fibs k), sumZ (filter is_odd (fibs k)),
          fib k, fib (S k)).
Proof.
  intros Hcut Hfuel.
  assert (Hiter : forall j,
    Nat.iter j (fun '(sequence, total, a, b) =>
                  if a mod 2 =? 1
                  then (sequence ++ [a], total + a, b, a + b)
                  else (sequence, total, b, a + b)) ([], 0, 1, 2)
    = (filter is_odd (fibs j), sumZ (filter is_odd (fibs j)),
       fib j, fib (S j))).
  { induction j as [|j IH]; [reflexivity|].
    rewrite Nat.iter_succ, IH. cbv beta iota.
    rewrite fibs_S, filter_app. cbn [filter].
    fold (is_odd (fib j)). destruct (is_odd (fib j)).
    - rewrite sumZ_snoc, fib_SS. reflexivity.
    - rewrite app_nil_r, fib_SS. reflexivity. }
  apply while_result with (k := k); try assumption.
  - intros j Hj. rewrite Hiter. apply Z.leb_le, (cut_le_iff _ _ _ Hcut), Hj.
  - rewrite Hiter. apply Z.leb_gt, Hcut.
  - apply Hiter.
Qed.

Lemma odd_filtered_lub_loop (limit : Z) (k fuel : nat) :
  is_cut limit k ->
  (2 <= fuel)%nat ->
  exists b',
    while (fun '(a, b) => (a <=? limit) || (a mod 2 =? 0))
          (fun '(a, b) => (b, a + b))
          fuel (fib k, fib (S k))
    = Some (if is_even (fib k) then fib (S k) else fib k, b').
Proof.
  intros [_ Hk] Hfuel.
  assert (Hout : (fib k <=? limit) = false) by now apply Z.leb_gt.
  destruct (is_even (fib k)) eqn:E.
  - pose proof E as E'. apply is_even_fib in E'. destruct E' as [j Hj].
    eexists. apply while_result with (k := 1%nat); [| | reflexivity | lia].
    + intros i Hi. assert (i = 0%nat) as -> by lia.
      cbn [Nat.iter nat_rect]. fold (is_even (fib k)). rewrite E.
      apply orb_true_r.
    + cbn [Nat.iter nat_rect]. apply orb_false_iff. split.
      * apply Z.leb_gt. pose proof (fib_pos_lt k). lia.
      * fold (is_even (fib (S k))).
        assert (H : is_odd (fib (S k)) = true)
          by (apply is_odd_fib; intros i; lia).
        rewrite is_odd_even in H. now apply negb_true_iff in H.
  - eexists. apply while_result with (k := 0%nat); [| | reflexivity | lia].
    + intros i Hi. lia.
    + cbn [Nat.iter nat_rect]. fold (is_even (fib k)). now rewrite Hout, E.
Qed.

Lemma fibonacci_odd_filtered_run
      (limit : Z) (k fuel : nat) (clk : Clock) (t : nat) :
  is_cut limit k ->
  (k < fuel)%nat ->
  (2 <= fuel)%nat ->
  fibonacci_odd_filtered fuel limit clk t
  = Returned (expected ODD limit k (elapsed EVEN clk t), (reads EVEN + t)%nat).
Proof.
  intros Hcut Hfuel H2.
  unfold fibonacci_odd_filtered, bind, perf_counter, terminated.
  rewrite (odd_filter_loop limit k fuel) by assumption.
  destruct (odd_filtered_lub_loop limit k fuel Hcut H2) as [b' Hloop].
  rewrite Hloop, sumZ_odd_fibs. reflexivity.
Qed.

(** ** More on the closed form of a result *)

Lemma expected_sum_of_sequence
      (f : FibonacciFilter) (limit : Z) (k : nat) (time : float) :
  sum_value (expected f limit k time) = sumZ (sequence (expected f limit k time))
  /\ count (expected f limit k time)
     = Z.of_nat (List.length (sequence (expected f limit k time)))
  /\ glb (expected f limit k time)
     = last (sequence (expected f limit k time)) 0.
Proof.
  destruct f; cbn [expected sum_value sequence count glb];
    repeat split; try reflexivity.
  symmetry. apply sumZ_odd_fibs.
Qed.

Lemma expected_complete
      (f : FibonacciFilter) (limit : Z) (k : nat) (time : float) (x : Z) :
  is_cut limit k ->
  in_class f x -> x <= limit ->
  In x (sequence (expected f limit k time)).
Proof.
  intros Hcut [[n ->] Hp] Hle.
  pose proof (proj1 (cut_le_iff limit k n Hcut) Hle) as Hn.
  destruct f; cbn [expected sequence parity_ok] in *.
  - apply in_fibs. now exists n.
  - apply fib_even_iff in Hp. destruct Hp as [j ->].
    apply in_evens. exists j. split; [|reflexivity].
    apply (even_cut _ _ _ Hcut). exact Hle.
  - apply filter_In. split; [apply in_fibs; now exists n|].
    now apply Z.eqb_eq.
Qed.

Lemma last_in (l : list Z) : l <> [] -> In (last l 0) l.
Proof.
  induction l as [|x l IH]; [congruence|]. intros _.
  destruct l as [|y l]; [now left|].
  right. apply IH. discriminate.
Qed.

Lemma last_greatest (l : list Z) :
  StronglySorted Z.lt l -> forall x, In x l -> x <= last l 0.
Proof.
  induction 1 as [|y l Hl IH Hy]; intros x Hin; [destruct Hin|].
  destruct l as [|z l].
  - destruct Hin as [->|[]]. simpl. lia.
  - change (last (y :: z :: l) 0) with (last (z :: l) 0).
    destruct Hin as [->|Hin]; [|now apply IH].
    rewrite Forall_forall in Hy.
    assert (Hz : In z (z :: l)) by (left; reflexivity).
    pose proof (Hy z Hz). pose proof (IH z Hz). lia.
Qed.

Lemma cut_mono (limit limit' : Z) (k k' : nat) :
  limit <= limit' -> is_cut limit k -> is_cut limit' k' -> (k <= k')%nat.
Proof.
  intros Hle Hcut [_ Hk'].
  destruct (Nat.le_gt_cases k k') as [|Hlt]; [assumption|].
  apply (cut_le_iff _ _ _ Hcut) in Hlt. lia.
Qed.

Lemma even_count_mono (k k' : nat) :
  (k <= k')%nat -> (even_count k <= even_count k')%nat.
Proof.
  intros H. pose proof (even_count_spec k). pose proof (even_count_spec k').
  lia.
Qed.

Lemma map_seq_prefix (g : nat -> Z) (k k' : nat) :
  (k <= k')%nat ->
  map g (seq 0 k') = map g (seq 0 k) ++ map g (seq k (k' - k)).
Proof.
  intros H. replace k' with (k + (k' - k))%nat at 1 by lia.
  now rewrite seq_app, map_app.
Qed.

Lemma expected_prefix
      (f : FibonacciFilter) (limit limit' : Z) (k k' : nat) (time time' : float) :
  (k <= k')%nat ->
  exists more,
    sequence (expected f limit' k' time')
    = sequence (expected f limit k time) ++ more /\
    Forall (fun x => 0 < x) more.
Proof.
  intros Hk. destruct f; cbn [expected sequence].
  - exists (map fib (seq k (k' - k))). split.
    + now apply map_seq_prefix.
    + apply Forall_forall. intros x Hx. apply in_map_iff in Hx.
      destruct Hx as (j & <- & _). apply fib_pos.
  - exists (map even_fib (seq (even_count k) (even_count k' - even_count k))).
    split.
    + apply map_seq_prefix. now apply even_count_mono.
    + apply Forall_forall. intros x Hx. apply in_map_iff in Hx.
      destruct Hx as (j & <- & _). apply fib_pos.
  - exists (filter is_odd (map fib (seq k (k' - k)))). split.
    + unfold fibs. rewrite (map_seq_prefix fib k k' Hk). apply filter_app.
    + apply Forall_forall. intros x Hx. apply filter_In in Hx.
      destruct Hx as [Hx _]. apply in_map_iff in Hx.
      destruct Hx as (j & <- & _). apply fib_pos.
Qed.

Lemma sumZ_positive (l : list Z) : Forall (fun x => 0 < x) l -> 0 <= sumZ l.
Proof.
  unfold sumZ. induction 1 as [|x l Hx _ IH]; simpl; lia.
Qed.

(** ** Further properties of the Fibonacci module *)

(** X5.  For every limit and every filter, the sequence of the result of
    [solve] holds exactly the terms of the sequence seeded (1, 2) that have
    the parity of the filter and are at most the limit: none is missing. *)
Theorem sequence_is_class_up_to_limit
        (limit : Z) (fuel : nat) (f : FibonacciFilter) (clk : Clock) (t : nat) :
  enough limit fuel ->
  exists r,
    returns (analyze fuel limit (Member f)) clk t r /\
    forall x, In x (sequence r) <-> in_class f x /\ x <= limit.
Proof.
  intros Hfuel. destruct (cut_exists limit) as (k & _ & Hcut).
  exists (expected f limit k (elapsed f clk t)).
  split; [now apply analyze_returns|].
  intros x. split.
  - intros Hx. destruct (expected_elements _ _ _ _ _ Hcut Hx). now split.
  - intros [Hc Hle]. now apply expected_complete.
Qed.

Lemma sequence_is_class_up_to_limit_witness :
  exists r,
    returns (analyze 13 10 (Member ODD)) still_clock 0 r /\
    forall x, In x (sequence r) <-> in_class ODD x /\ x <= 10.
Proof.
  apply (sequence_is_class_up_to_limit 10 13 ODD still_clock 0).
  unfold enough. simpl. lia.
Defined.

(** X6.  For every limit and every filter, the fields of the result of
    [solve] fit together: [sum_value] is the sum of [sequence] (for ODD,
    where it is computed as a difference, too), [count] is its length and
    [glb] is its last element, or 0 when it is empty; [limit] and
    [filter_type] are the arguments. *)
Theorem result_fields_fit
        (limit : Z) (fuel : nat) (f : FibonacciFilter) (clk : Clock) (t : nat) :
  enough limit fuel ->
  exists r,
    returns (analyze fuel limit (Member f)) clk t r /\
    sum_value r = sumZ (sequence r) /\
    count r = Z.of_nat (List.length (sequence r)) /\
    glb r = last (sequence r) 0 /\
    Euler2.limit r = limit /\
    filter_type r = f.
Proof.
  intros Hfuel. destruct (cut_exists limit) as (k & _ & Hcut).
  exists (expected f limit k (elapsed f clk t)).
  split; [now apply analyze_returns|].
  destruct (expected_sum_of_sequence f limit k (elapsed f clk t))
    as (Hs & Hc & Hg).
  repeat split; try assumption; destruct f; reflexivity.
Qed.

Lemma result_fields_fit_witness :
  exists r,
    returns (analyze 13 10 (Member ODD)) still_clock 0 r /\
    sum_value r = sumZ (sequence r) /\
    count r = Z.of_nat (List.length (sequence r)) /\
    glb r = last (sequence r) 0 /\
    Euler2.limit r = 10 /\
    filter_type r = ODD.
Proof.
  apply (result_fields_fit 10 13 ODD still_clock 0).
  unfold enough. simpl. lia.
Defined.

(** X7.  For every limit and every filter, [glb] is the greatest term of the
    filtered class that is at most the limit, or 0 when the class has no
    term up to the limit; in both cases it is below [lub]. *)
Theorem glb_is_greatest_up_to_limit
        (limit : Z) (fuel : nat) (f : FibonacciFilter) (clk : Clock) (t : nat) :
  enough limit fuel ->
  exists r,
    returns (analyze fuel limit (Member f)) clk t r /\
    ((glb r = 0 /\ sequence r = [] /\
      forall y, in_class f y -> limit < y) \/
     (in_class f (glb r) /\ glb r <= limit /\
      forall y, in_class f y -> y <= limit -> y <= glb r)) /\
    glb r < lub r.
Proof.
  intros Hfuel. destruct (cut_exists limit) as (k & _ & Hcut).
  set (r := expected f limit k (elapsed f clk t)).
  exists r. split; [now apply analyze_returns|].
  destruct (expected_sum_of_sequence f limit k (elapsed f clk t))
    as (_ & _ & Hg). fold r in Hg.
  destruct (expected_lub f limit k (elapsed f clk t) Hcut) as (Hlub & Hin & _).
  fold r in Hlub, Hin.
  assert (Hpos : 0 < lub r).
  { destruct Hin as [[n ->] _]. apply fib_pos. }
  destruct (sequence r) as [|x l] eqn:E.
  - split; [left | simpl in Hg; lia].
    split; [exact Hg|]. split; [reflexivity|].
    intros y Hy. destruct (Z_lt_le_dec limit y) as [|Hle]; [assumption|].
    pose proof (expected_complete f limit k (elapsed f clk t) y Hcut Hy Hle)
      as Hc.
    fold r in Hc. rewrite E in Hc. destruct Hc.
  - assert (Hlast : In (glb r) (sequence r)).
    { rewrite Hg, E. apply last_in. discriminate. }
    destruct (expected_elements f limit k (elapsed f clk t) (glb r) Hcut Hlast)
      as [Hle Hc].
    split; [right | lia].
    split; [assumption|]. split; [assumption|].
    intros y Hy Hyle. rewrite Hg.
    apply last_greatest; fold r; [rewrite <- E; apply sorted_expected|].
    rewrite <- E. now apply expected_complete.
Qed.

Lemma glb_is_greatest_up_to_limit_witness :
  exists r,
    returns (analyze 4 1 (Member EVEN)) still_clock 0 r /\
    ((glb r = 0 /\ sequence r = [] /\
      forall y, in_class EVEN y -> 1 < y) \/
     (in_class EVEN (glb r) /\ glb r <= 1 /\
      forall y, in_class EVEN y -> y <= 1 -> y <= glb r)) /\
    glb r < lub r.
Proof.
  apply (glb_is_greatest_up_to_limit 1 4 EVEN still_clock 0).
  unfold enough. simpl. lia.
Defined.

Lemma solve_all_three_run (limit : Z) (k fuel : nat) (clk : Clock) (t : nat) :
  is_cut limit k ->
  enough limit fuel ->
  UnifiedFibonacciSolver.solve_all_three
    fuel (UnifiedFibonacciSolver.__init__ limit) clk t
  = Returned
      ((expected ALL limit k (elapsed ALL clk t),
        expected EVEN limit k (elapsed EVEN clk (2 + t)%nat),
        expected ODD limit k (elapsed ODD clk (4 + t)%nat)),
       (10 + t)%nat).
Proof.
  intros Hcut Hfuel.
  unfold UnifiedFibonacciSolver.solve_all_three, bind.
  change (UnifiedFibonacciSolver.solve fuel
            (UnifiedFibonacciSolver.__init__ limit))
    with (analyze fuel limit).
  rewrite (analyze_run ALL limit k) by assumption.
  rewrite (analyze_run EVEN limit k) by assumption.
  rewrite (analyze_run ODD limit k) by assumption.
  reflexivity.
Qed.

(** X8.  For every limit, [solve_all_three] returns three results that
    [verify_results] accepts; the EVEN and the ODD sequence are the even and
    the odd elements of the ALL sequence, in its order, and the counts add
    up. *)
Theorem solve_all_three_verified
        (limit : Z) (fuel : nat) (clk : Clock) (t : nat) :
  enough limit fuel ->
  exists all_result even_result odd_result,
    returns (UnifiedFibonacciSolver.solve_all_three
               fuel (UnifiedFibonacciSolver.__init__ limit))
            clk t (all_result, even_result, odd_result) /\
    UnifiedFibonacciSolver.verify_results all_result even_result odd_result
    = true /\
    sequence even_result = filter is_even (sequence all_result) /\
    sequence odd_result = filter is_odd (sequence all_result) /\
    count all_result = count even_result + count odd_result.
Proof.
  intros Hfuel. destruct (cut_exists limit) as (k & _ & Hcut).
  exists (expected ALL limit k (elapsed ALL clk t)),
         (expected EVEN limit k (elapsed EVEN clk (2 + t)%nat)),
         (expected ODD limit k (elapsed ODD clk (4 + t)%nat)).
  split; [exists (10 + t)%nat; now apply solve_all_three_run|].
  split; [apply Z.eqb_eq, expected_sum|].
  cbn [expected sequence count]. split; [symmetry; apply filter_even_fibs|].
  split; [reflexivity|].
  unfold len. rewrite (length_parity (fibs k)), filter_even_fibs. lia.
Qed.

Lemma solve_all_three_verified_witness :
  exists all_result even_result odd_result,
    returns (UnifiedFibonacciSolver.solve_all_three
               13 (UnifiedFibonacciSolver.__init__ 10))
            still_clock 0 (all_result, even_result, odd_result) /\
    UnifiedFibonacciSolver.verify_results all_result even_result odd_result
    = true /\
    sequence even_result = filter is_even (sequence all_result) /\
    sequence odd_result = filter is_odd (sequence all_result) /\
    count all_result = count even_result + count odd_result.
Proof.
  apply (solve_all_three_verified 10 13 still_clock 0).
  unfold enough. simpl. lia.
Defined.

(** X9.  For every limit, [fibonacci_odd_filtered] and
    [fibonacci_odd_difference] return records that agree on every field but
    [computation_time]: the sum taken as a difference is the sum of the odd
    terms, and both searches for the least upper bound end on the same
    term. *)
Theorem odd_filtered_is_odd_difference
        (limit : Z) (fuel : nat) (clk clk' : Clock) (t t' : nat) :
  enough limit fuel ->
  exists filtered difference,
    returns (fibonacci_odd_filtered fuel limit) clk t filtered /\
    returns (fibonacci_odd_difference fuel limit) clk' t' difference /\
    filter_type filtered = filter_type difference /\
    sum_value filtered = sum_value difference /\
    sequence filtered = sequence difference /\
    count filtered = count difference /\
    glb filtered = glb difference /\
    lub filtered = lub difference /\
    Euler2.limit filtered = Euler2.limit difference.
Proof.
  intros Hfuel. destruct (cut_exists limit) as (k & _ & Hcut).
  destruct (enough_cut _ _ _ Hcut Hfuel) as [Hk H3].
  exists (expected ODD limit k (elapsed EVEN clk t)),
         (expected ODD limit k (elapsed ODD clk' t')).
  split; [eexists; apply fibonacci_odd_filtered_run; (assumption || lia)|].
  split; [eexists; apply fibonacci_odd_difference_run; (assumption || lia)|].
  repeat split.
Qed.

Lemma odd_filtered_is_odd_difference_witness :
  exists filtered difference,
    returns (fibonacci_odd_filtered 13 10) still_clock 0 filtered /\
    returns (fibonacci_odd_difference 13 10) still_clock 0 difference /\
    filter_type filtered = filter_type difference /\
    sum_value filtered = sum_value difference /\
    sequence filtered = sequence difference /\
    count filtered = count difference /\
    glb filtered = glb difference /\
    lub filtered = lub difference /\
    Euler2.limit filtered = Euler2.limit difference.
Proof.
  apply (odd_filtered_is_odd_difference 10 13 still_clock still_clock 0 0).
  unfold enough. simpl. lia.
Defined.

(** X10.  For every limit, also one below 1, [fibonacci_even_filtered] and
    [fibonacci_even_optimized] return records that agree on [count], [glb]
    and [lub] as well: the search of the filtering version for the next
    even term ends on the term at which the direct recurrence stops. *)
Theorem even_filtered_bounds_agree
        (limit : Z) (fuel : nat) (clk clk' : Clock) (t t' : nat) :
  enough limit fuel ->
  exists filtered optimized,
    returns (fibonacci_even_filtered fuel limit) clk t filtered /\
    returns (fibonacci_even_optimized fuel limit) clk' t' optimized /\
    filter_type filtered = filter_type optimized /\
    count filtered = count optimized /\
    glb filtered = glb optimized /\
    lub filtered = lub optimized /\
    Euler2.limit filtered = Euler2.limit optimized /\
    limit < lub filtered /\ lub filtered mod 2 = 0.
Proof.
  intros Hfuel. destruct (cut_exists limit) as (k & _ & Hcut).
  destruct (enough_cut _ _ _ Hcut Hfuel) as [Hk H3].
  exists (expected EVEN limit k (elapsed EVEN clk t)),
         (expected EVEN limit k (elapsed EVEN clk' t')).
  split; [eexists; now apply fibonacci_even_filtered_run|].
  split; [eexists; now apply fibonacci_even_optimized_run|].
  destruct (expected_lub EVEN limit k (elapsed EVEN clk t) Hcut)
    as (Hl & [_ Hp] & _).
  repeat split; assumption.
Qed.

Lemma even_filtered_bounds_agree_witness :
  exists filtered optimized,
    returns (fibonacci_even_filtered 3 0) still_clock 0 filtered /\
    returns (fibonacci_even_optimized 3 0) still_clock 0 optimized /\
    filter_type filtered = filter_type optimized /\
    count filtered = count optimized /\
    glb filtered = glb optimized /\
    lub filtered = lub optimized /\
    Euler2.limit filtered = Euler2.limit optimized /\
    0 < lub filtered /\ lub filtered mod 2 = 0.
Proof.
  apply (even_filtered_bounds_agree 0 3 still_clock still_clock 0 0).
  unfold enough. simpl. lia.
Defined.

(** X11.  Raising the limit only appends: for limit <= limit' and every
    filter, the sequence for limit is a prefix of the sequence for limit',
    the appended terms are positive, and the sum does not decrease. *)
Theorem sequence_grows_with_limit
        (limit limit' : Z) (fuel fuel' : nat) (f : FibonacciFilter)
        (clk clk' : Clock) (t t' : nat) :
  limit <= limit' ->
  enough limit fuel ->
  enough limit' fuel' ->
  exists r r' more,
    returns (analyze fuel limit (Member f)) clk t r /\
    returns (analyze fuel' limit' (Member f)) clk' t' r' /\
    sequence r' = sequence r ++ more /\
    Forall (fun x => 0 < x) more /\
    sum_value r <= sum_value r'.
Proof.
  intros Hle Hfuel Hfuel'.
  destruct (cut_exists limit) as (k & _ & Hcut).
  destruct (cut_exists limit') as (k' & _ & Hcut').
  pose proof (cut_mono _ _ _ _ Hle Hcut Hcut') as Hk.
  destruct (expected_prefix f limit limit' k k' (elapsed f clk t)
              (elapsed f clk' t') Hk) as (more & Hmore & Hpos).
  exists (expected f limit k (elapsed f clk t)),
         (expected f limit' k' (elapsed f clk' t')), more.
  split; [now apply analyze_returns|].
  split; [now apply analyze_returns|].
  split; [assumption|]. split; [assumption|].
  destruct (expected_sum_of_sequence f limit k (elapsed f clk t)) as (-> & _).
  destruct (expected_sum_of_sequence f limit' k' (elapsed f clk' t'))
    as (-> & _).
  rewrite Hmore, sumZ_app. pose proof (sumZ_positive more Hpos). lia.
Qed.

Lemma sequence_grows_with_limit_witness :
  exists r r' more,
    returns (analyze 13 10 (Member ALL)) still_clock 0 r /\
    returns (analyze 23 20 (Member ALL)) still_clock 0 r' /\
    sequence r' = sequence r ++ more /\
    Forall (fun x => 0 < x) more /\
    sum_value r <= sum_value r'.
Proof.
  apply (sequence_grows_with_limit 10 20 13 23 ALL still_clock still_clock 0 0);
    [lia | unfold enough; simpl; lia | unfold enough; simpl; lia].
Defined.

(** ** The Dedekind cut *)

Lemma analyze_dedekind_cut_run
      (f : FibonacciFilter) (limit : Z) (k fuel : nat) (clk : Clock) (t : nat) :
  is_cut limit k ->
  enough limit fuel ->
  analyze_dedekind_cut fuel (Member f) limit clk t
  = Returned (cut_of f (expected f limit k (elapsed f clk t)),
              (reads f + t)%nat).
Proof.
  intros Hcut Hfuel. unfold analyze_dedekind_cut, bind.
  change (UnifiedFibonacciSolver.solve fuel
            (UnifiedFibonacciSolver.__init__ limit))
    with (analyze fuel limit).
  rewrite (analyze_run f limit k) by assumption.
  destruct f; reflexivity.
Qed.

Lemma analyze_dedekind_cut_returns
      (f : FibonacciFilter) (limit : Z) (k fuel : nat) (clk : Clock) (t : nat) :
  is_cut limit k ->
  enough limit fuel ->
  returns (analyze_dedekind_cut fuel (Member f) limit) clk t
          (cut_of f (expected f limit k (elapsed f clk t))).
Proof.
  intros Hcut Hfuel. eexists. now apply analyze_dedekind_cut_run.
Qed.

Lemma upper_set_all (g l : Z) :
  upper_set_of (Member ALL) g l = [l; g + l; l + (g + l)].
Proof. reflexivity. Qed.

Lemma upper_set_even (g l : Z) :
  upper_set_of (Member EVEN) g l
  = [l; 4 * l + g; 4 * (4 * l + g) + l].
Proof. reflexivity. Qed.

Lemma upper_set_odd (g l : Z) :
  g mod 2 = 1 -> l mod 2 = 1 ->
  upper_set_of (Member ODD) g l
  = [l; l + (g + l); g + l + (l + (g + l))].
Proof.
  intros Hg Hl.
  assert (H1 : ((g + l) mod 2 =? 0) = true)
    by (apply Z.eqb_eq; rewrite Z.add_mod, Hg, Hl by lia; reflexivity).
  assert (H2 : ((g + l + (l + (g + l))) mod 2 =? 0) = false).
  { apply Z.eqb_neq.
    replace (g + l + (l + (g + l))) with (l + (g + l) * 2) by ring.
    rewrite Z.mod_add by lia. lia. }
  unfold upper_set_of, for_range. cbn [is_filter filter_eqb Nat.iter nat_rect].
  cbv beta iota zeta. cbn [andb app]. rewrite H1. cbv beta iota zeta.
  cbn [andb app]. rewrite H2. cbv beta iota zeta. cbn [andb app].
  match goal with
  | |- context [if ?c then _ else _] => destruct c
  end; reflexivity.
Qed.

Lemma upper_set_of_above (f : FibonacciFilter) (g l : Z) :
  0 <= g -> 0 < l ->
  List.length (upper_set_of (Member f) g l) = 3%nat /\
  hd 0 (upper_set_of (Member f) g l) = l /\
  forall y, In y (upper_set_of (Member f) g l) -> l <= y.
Proof.
  intros Hg Hl. destruct f.
  - rewrite upper_set_all. repeat split. intros y Hy. cbn [In] in Hy. lia.
  - rewrite upper_set_even. repeat split. intros y Hy. cbn [In] in Hy. lia.
  - unfold upper_set_of, for_range.
    cbn [is_filter filter_eqb Nat.iter nat_rect].
    cbv beta iota zeta. cbn [andb app].
    repeat match goal with
           | |- context [if ?c then _ else _] => destruct c
           end;
      cbv beta iota zeta; cbn [andb app];
      repeat match goal with
             | |- context [if ?c then _ else _] => destruct c
             end;
      (repeat split; intros y Hy; cbn [In] in Hy; lia).
Qed.

Lemma fib_plus3 (n : nat) : fib (3 + n) = fib n + 2 * fib (S n).
Proof.
  change (3 + n)%nat with (S (S (S n))). rewrite !fib_SS. lia.
Qed.

Lemma is_even_by_index (m : nat) :
  is_even (fib (3 * m)) = false /\
  is_even (fib (3 * m + 1)) = true /\
  is_even (fib (3 * m + 2)) = false.
Proof.
  destruct (fib_parity m) as (H0 & H1 & H2). unfold is_even.
  rewrite H0, H1, H2. repeat split.
Qed.

Lemma last_odd_fibs (k : nat) :
  last_or_zero (filter is_odd (fibs (S k)))
  = if is_odd (fib k) then fib k else last_or_zero (filter is_odd (fibs k)).
Proof.
  unfold last_or_zero. rewrite fibs_S, filter_app. cbn [filter].
  destruct (is_odd (fib k)); [apply last_last | now rewrite app_nil_r].
Qed.

Lemma odd_bounds (limit : Z) (k : nat) (time : float) :
  (0 < k)%nat ->
  exists m,
    (k = (3 * m + 3)%nat /\
     glb (expected ODD limit k time) = fib (3 * m + 2) /\
     lub (expected ODD limit k time) = fib (3 * m + 3)) \/
    ((k = (3 * m + 1)%nat \/ k = (3 * m + 2)%nat) /\
     glb (expected ODD limit k time) = fib (3 * m) /\
     lub (expected ODD limit k time) = fib (3 * m + 2)).
Proof.
  intros Hk. cbn [expected glb lub].
  assert (Hone : forall m,
    last_or_zero (filter is_odd (fibs (3 * m + 1))) = fib (3 * m)).
  { intros m. replace (3 * m + 1)%nat with (S (3 * m)) by lia.
    rewrite last_odd_fibs, is_odd_even.
    now destruct (is_even_by_index m) as (-> & _). }
  destruct (index_mod3 k) as [m [-> | [-> | ->]]].
  - destruct m as [|m]; [lia|]. exists m. left.
    split; [lia|].
    replace (3 * S m)%nat with (S (3 * m + 2)) by lia.
    rewrite last_odd_fibs, is_odd_even.
    destruct (is_even_by_index m) as (_ & _ & ->). cbn [negb].
    split; [reflexivity|].
    replace (S (3 * m + 2)) with (3 * S m)%nat by lia.
    destruct (is_even_by_index (S m)) as (-> & _).
    f_equal. lia.
  - exists m. right. split; [now left|]. split; [apply Hone|].
    destruct (is_even_by_index m) as (_ & -> & _). f_equal. lia.
  - exists m. right. split; [now right|]. split.
    + replace (3 * m + 2)%nat with (S (3 * m + 1)) by lia.
      rewrite last_odd_fibs, is_odd_even.
      destruct (is_even_by_index m) as (_ & -> & _). cbn [negb]. apply Hone.
    + now destruct (is_even_by_index m) as (_ & _ & ->).
Qed.

Lemma fib_inj_index (n m : nat) : fib n = fib m -> n = m.
Proof.
  intros H. destruct (Nat.lt_trichotomy n m) as [Hl|[He|Hg]];
    [apply fib_lt in Hl; lia | assumption | apply fib_lt in Hg; lia].
Qed.

Lemma gap_not_fib (m n : nat) : fib (3 * m) + 2 * fib (3 * m + 2) <> fib n.
Proof.
  intros H.
  replace (3 * m + 2)%nat with (S (S (3 * m))) in H by lia.
  pose proof (fib_pos_lt (3 * m)) as Hp.
  assert (H3 : fib (S (S (S (3 * m)))) < fib n)
    by (rewrite <- H, !fib_SS; lia).
  assert (H4 : fib n < fib (S (S (S (S (3 * m))))))
    by (rewrite <- H, !fib_SS; lia).
  apply fib_lt_inv in H3, H4. lia.
Qed.

Lemma expected_bounds_positive
      (f : FibonacciFilter) (limit : Z) (k : nat) (time : float) :
  is_cut limit k ->
  0 <= glb (expected f limit k time) <= limit \/
  glb (expected f limit k time) = 0.
Proof.
  intros Hcut.
  destruct (expected_sum_of_sequence f limit k time) as (_ & _ & Hg).
  destruct (sequence (expected f limit k time)) as [|x l] eqn:E.
  - right. exact Hg.
  - left. assert (Hin : In (glb (expected f limit k time))
                           (sequence (expected f limit k time))).
    { rewrite Hg, E. apply last_in. discriminate. }
    destruct (expected_elements _ _ _ _ _ Hcut Hin) as [Hle [[n Hn] _]].
    pose proof (fib_pos n). lia.
Qed.

(** X12.  For every limit and every filter, [analyze_dedekind_cut] returns a
    cut that separates: every element of the lower set is at most the
    limit, the upper set has three elements, starts with [lub] and lies
    above the limit, [glb] is below [lub], and the two indices are the
    number of elements of the lower set and that number plus 1. *)
Theorem dedekind_cut_separates
        (limit : Z) (fuel : nat) (f : FibonacciFilter) (clk : Clock) (t : nat) :
  enough limit fuel ->
  exists c,
    returns (analyze_dedekind_cut fuel (Member f) limit) clk t c /\
    DedekindCut.limit c = limit /\
    (forall x, In x (DedekindCut.lower_set c) -> x <= limit) /\
    List.length (DedekindCut.upper_set c) = 3%nat /\
    hd 0 (DedekindCut.upper_set c) = DedekindCut.lub c /\
    (forall y, In y (DedekindCut.upper_set c) -> limit < y) /\
    DedekindCut.glb c < DedekindCut.lub c /\
    DedekindCut.glb_index c
    = Z.of_nat (List.length (DedekindCut.lower_set c)) /\
    DedekindCut.lub_index c = DedekindCut.glb_index c + 1.
Proof.
  intros Hfuel. destruct (cut_exists limit) as (k & _ & Hcut).
  exists (cut_of f (expected f limit k (elapsed f clk t))).
  split; [now apply analyze_dedekind_cut_returns|].
  cbn [cut_of DedekindCut.limit DedekindCut.lower_set DedekindCut.upper_set
       DedekindCut.glb DedekindCut.lub DedekindCut.glb_index
       DedekindCut.lub_index].
  set (r := expected f limit k (elapsed f clk t)).
  destruct (expected_lub f limit k (elapsed f clk t) Hcut)
    as (Hlub & [[n Hn] _] & _). fold r in Hlub, Hn.
  pose proof (fib_pos n) as Hpos.
  pose proof (expected_bounds_positive f limit k (elapsed f clk t) Hcut)
    as Hglb. fold r in Hglb.
  destruct (upper_set_of_above f (glb r) (lub r)) as (Hlen & Hhd & Habove);
    [lia | lia |].
  split; [destruct f; reflexivity|]. split.
  { intros x Hx. now destruct (expected_elements _ _ _ _ _ Hcut Hx). }
  split; [assumption|]. split; [assumption|]. split.
  { intros y Hy. specialize (Habove y Hy). lia. }
  split; [lia|]. split; [|reflexivity].
  now destruct (expected_sum_of_sequence f limit k (elapsed f clk t))
    as (_ & Hc & _).
Qed.

Lemma dedekind_cut_separates_witness :
  exists c,
    returns (analyze_dedekind_cut 13 (Member ODD) 10) still_clock 0 c /\
    DedekindCut.limit c = 10 /\
    (forall x, In x (DedekindCut.lower_set c) -> x <= 10) /\
    List.length (DedekindCut.upper_set c) = 3%nat /\
    hd 0 (DedekindCut.upper_set c) = DedekindCut.lub c /\
    (forall y, In y (DedekindCut.upper_set c) -> 10 < y) /\
    DedekindCut.glb c < DedekindCut.lub c /\
    DedekindCut.glb_index c
    = Z.of_nat (List.length (DedekindCut.lower_set c)) /\
    DedekindCut.lub_index c = DedekindCut.glb_index c + 1.
Proof.
  apply (dedekind_cut_separates 10 13 ODD still_clock 0).
  unfold enough. simpl. lia.
Defined.

(** X13.  For ALL and every limit of at least 1, the upper set of
    [analyze_dedekind_cut] is the three least terms of the sequence above
    the limit: with k the index of the first term above the limit, the
    lower set is the terms of index below k and the upper set is the terms
    of index k, k + 1 and k + 2. *)
Theorem dedekind_cut_all
        (limit : Z) (fuel : nat) (clk : Clock) (t : nat) :
  1 <= limit ->
  enough limit fuel ->
  exists c k,
    returns (analyze_dedekind_cut fuel (Member ALL) limit) clk t c /\
    is_cut limit k /\
    DedekindCut.lower_set c = fibs k /\
    DedekindCut.upper_set c = [fib k; fib (S k); fib (S (S k))].
Proof.
  intros Hlimit Hfuel. destruct (cut_exists limit) as (k & _ & Hcut).
  exists (cut_of ALL (expected ALL limit k (elapsed ALL clk t))), k.
  split; [now apply analyze_dedekind_cut_returns|].
  split; [assumption|]. split; [reflexivity|].
  cbn [cut_of DedekindCut.upper_set expected glb lub]. rewrite upper_set_all.
  destruct k as [|k]; [destruct Hcut as [_ H]; simpl in H; lia|].
  rewrite last_fibs, !fib_SS. reflexivity.
Qed.

Lemma dedekind_cut_all_witness :
  exists c k,
    returns (analyze_dedekind_cut 13 (Member ALL) 10) still_clock 0 c /\
    is_cut 10 k /\
    DedekindCut.lower_set c = fibs k /\
    DedekindCut.upper_set c = [fib k; fib (S k); fib (S (S k))].
Proof.
  apply (dedekind_cut_all 10 13 still_clock 0);
    [lia | unfold enough; simpl; lia].
Defined.

(** X14.  For EVEN and every limit, the upper set of [analyze_dedekind_cut]
    is the three least even terms above the limit: with j the number of
    even terms up to the limit, the lower set is the first j even terms and
    the upper set is the next three. *)
Theorem dedekind_cut_even
        (limit : Z) (fuel : nat) (clk : Clock) (t : nat) :
  enough limit fuel ->
  exists c j,
    returns (analyze_dedekind_cut fuel (Member EVEN) limit) clk t c /\
    (forall i, even_fib i <= limit <-> (i < j)%nat) /\
    DedekindCut.lower_set c = evens j /\
    DedekindCut.upper_set c
    = [even_fib j; even_fib (S j); even_fib (S (S j))].
Proof.
  intros Hfuel. destruct (cut_exists limit) as (k & _ & Hcut).
  exists (cut_of EVEN (expected EVEN limit k (elapsed EVEN clk t))),
         (even_count k).
  split; [now apply analyze_dedekind_cut_returns|].
  split; [intros i; now apply even_cut|]. split; [reflexivity|].
  cbn [cut_of DedekindCut.upper_set expected glb lub]. rewrite upper_set_even.
  destruct (even_count k) as [|j]; [reflexivity|].
  unfold last_or_zero. rewrite evens_S, last_last.
  rewrite <- even_fib_SS, <- even_fib_SS. reflexivity.
Qed.

Lemma dedekind_cut_even_witness :
  exists c j,
    returns (analyze_dedekind_cut 4 (Member EVEN) 1) still_clock 0 c /\
    (forall i, even_fib i <= 1 <-> (i < j)%nat) /\
    DedekindCut.lower_set c = evens j /\
    DedekindCut.upper_set c
    = [even_fib j; even_fib (S j); even_fib (S (S j))].
Proof.
  apply (dedekind_cut_even 1 4 still_clock 0). unfold enough. simpl. lia.
Defined.

(** X15.  For every limit below 1 the lower set is empty and the upper set
    repeats the first term: it is [1, 1, 2] for ALL and [1, 1, 3] for ODD,
    because the recurrence is restarted from glb = 0 and lub = 1. *)
Theorem dedekind_cut_below_one
        (limit : Z) (fuel : nat) (clk clk' : Clock) (t t' : nat) :
  limit < 1 ->
  enough limit fuel ->
  exists c c',
    returns (analyze_dedekind_cut fuel (Member ALL) limit) clk t c /\
    returns (analyze_dedekind_cut fuel (Member ODD) limit) clk' t' c' /\
    DedekindCut.lower_set c = [] /\
    DedekindCut.upper_set c = [1; 1; 2] /\
    DedekindCut.lower_set c' = [] /\
    DedekindCut.upper_set c' = [1; 1; 3].
Proof.
  intros Hlimit Hfuel.
  assert (Hcut : is_cut limit 0).
  { split; [intros j Hj; lia | simpl; lia]. }
  exists (cut_of ALL (expected ALL limit 0 (elapsed ALL clk t))),
         (cut_of ODD (expected ODD limit 0 (elapsed ODD clk' t'))).
  split; [now apply analyze_dedekind_cut_returns|].
  split; [now apply analyze_dedekind_cut_returns|].
  repeat split.
Qed.

Lemma dedekind_cut_below_one_witness :
  exists c c',
    returns (analyze_dedekind_cut 3 (Member ALL) 0) still_clock 0 c /\
    returns (analyze_dedekind_cut 3 (Member ODD) 0) still_clock 0 c' /\
    DedekindCut.lower_set c = [] /\
    DedekindCut.upper_set c = [1; 1; 2] /\
    DedekindCut.lower_set c' = [] /\
    DedekindCut.upper_set c' = [1; 1; 3].
Proof.
  apply (dedekind_cut_below_one 0 3 still_clock still_clock 0 0);
    [lia | unfold enough; simpl; lia].
Defined.

(** X16.  For ODD and every limit of at least 1, the upper set of
    [analyze_dedekind_cut] is [lub, glb + 2 lub, 2 glb + 3 lub]: the
    standard recurrence is restarted from the odd [glb] and [lub].  Its
    second element is a term of the sequence seeded (1, 2) exactly when
    [glb] and [lub] are consecutive terms of that sequence; when an even
    term lies between them, it is not. *)
Theorem dedekind_cut_odd
        (limit : Z) (fuel : nat) (clk : Clock) (t : nat) :
  1 <= limit ->
  enough limit fuel ->
  exists c,
    returns (analyze_dedekind_cut fuel (Member ODD) limit) clk t c /\
    DedekindCut.upper_set c
    = [DedekindCut.lub c;
       DedekindCut.glb c + 2 * DedekindCut.lub c;
       2 * DedekindCut.glb c + 3 * DedekindCut.lub c] /\
    ((exists n, DedekindCut.glb c + 2 * DedekindCut.lub c = fib n) <->
     (exists n, DedekindCut.glb c = fib n /\ DedekindCut.lub c = fib (S n))).
Proof.
  intros Hlimit Hfuel. destruct (cut_exists limit) as (k & _ & Hcut).
  assert (Hk : (0 < k)%nat).
  { destruct k; [destruct Hcut as [_ H]; simpl in H; lia | lia]. }
  exists (cut_of ODD (expected ODD limit k (elapsed ODD clk t))).
  split; [now apply analyze_dedekind_cut_returns|].
  cbn [cut_of DedekindCut.upper_set DedekindCut.glb DedekindCut.lub].
  set (r := expected ODD limit k (elapsed ODD clk t)).
  destruct (odd_bounds limit k (elapsed ODD clk t) Hk)
    as [m [(_ & Hg & Hl) | (_ & Hg & Hl)]]; fold r in Hg, Hl.
  - assert (Hgo : glb r mod 2 = 1) by (rewrite Hg; apply fib_parity).
    assert (Hlo : lub r mod 2 = 1).
    { rewrite Hl. replace (3 * m + 3)%nat with (3 * S m)%nat by lia.
      apply fib_parity. }
    split.
    + rewrite (upper_set_odd _ _ Hgo Hlo).
      replace (lub r + (glb r + lub r)) with (glb r + 2 * lub r) by lia.
      replace (glb r + lub r + (glb r + 2 * lub r))
        with (2 * glb r + 3 * lub r) by lia.
      reflexivity.
    + split; [|intros (n & -> & ->); exists (3 + n)%nat;
                rewrite fib_plus3; reflexivity].
      intros _. exists (3 * m + 2)%nat. split; [assumption|].
      rewrite Hl. f_equal. lia.
  - assert (Hgo : glb r mod 2 = 1) by (rewrite Hg; apply fib_parity).
    assert (Hlo : lub r mod 2 = 1) by (rewrite Hl; apply fib_parity).
    split.
    + rewrite (upper_set_odd _ _ Hgo Hlo).
      replace (lub r + (glb r + lub r)) with (glb r + 2 * lub r) by lia.
      replace (glb r + lub r + (glb r + 2 * lub r))
        with (2 * glb r + 3 * lub r) by lia.
      reflexivity.
    + split.
      * intros [n Hn]. rewrite Hg, Hl in Hn. now apply gap_not_fib in Hn.
      * intros (n & Hn & Hn'). rewrite Hg in Hn. rewrite Hl in Hn'.
        apply fib_inj_index in Hn. apply fib_inj_index in Hn'. lia.
Qed.

Lemma dedekind_cut_odd_witness :
  exists c,
    returns (analyze_dedekind_cut 103 (Member ODD) 100) still_clock 0 c /\
    DedekindCut.upper_set c
    = [DedekindCut.lub c;
       DedekindCut.glb c + 2 * DedekindCut.lub c;
       2 * DedekindCut.glb c + 3 * DedekindCut.lub c] /\
    ((exists n, DedekindCut.glb c + 2 * DedekindCut.lub c = fib n) <->
     (exists n, DedekindCut.glb c = fib n /\ DedekindCut.lub c = fib (S n))).
Proof.
  apply (dedekind_cut_odd 100 103 still_clock 0);
    [lia | unfold enough; simpl; lia].
Defined.
